(** * Verification of the subwin caption pipeline.

    Shallow embedding of the parts of the subwin crates that the caption
    pipeline relies on:
    - [subwin-speech/src/stabilizer.rs]: the caption stabilizer;
    - [subwin-speech/src/lib.rs] and [subwin-speech/src/whisper.rs]: the
      rolling-window transcription scheduler around the opaque STT engine;
    - [subwin-audio/src/lib.rs], [subwin-audio/src/device.rs]: buffer sizing;
    - [src/audio/mixer.rs], [src/audio/resampler.rs]: downmixing and the
      fixed-block resampler.

    Rust [i64] timestamps are modelled as [Z]: they count milliseconds since
    the start of a session and stay far from the [i64] range. *)

From Stdlib Require Import ZArith Lia List Bool String Ascii.
From Stdlib Require Import Floats QArith.
From Stdlib Require Import Sorting.Sorted Sorting.Permutation.
Import ListNotations.

Open Scope Z_scope.

(** ** Caption segments and the stabilizer ([stabilizer.rs]) *)

Module Stabilizer.

(** [CaptionSegment] of [subwin-speech/src/lib.rs]. *)
Record CaptionSegment := mkSegment {
  start_milliseconds : Z;
  end_milliseconds : Z;
  text : string
}.

(** [CaptionUpdate]; [Default] gives two empty vectors. *)
Record CaptionUpdate := mkUpdate {
  history : list CaptionSegment;
  active : list CaptionSegment
}.

Definition default_update : CaptionUpdate := mkUpdate [] [].

Record CaptionsStabilizer := mkStabilizer {
  tail_ms : Z;
  dedupe_fuzz_ms : Z;
  last_final_end_ms : Z
}.

Definition new (tail : Z) : CaptionsStabilizer := mkStabilizer tail 80 0.

(** [str::starts_with(char)] and [str::ends_with(char)]. *)
Definition starts_with (s : string) (c : ascii) : bool :=
  match s with
  | EmptyString => false
  | String d _ => Ascii.eqb c d
  end.

Fixpoint last_char (s : string) : option ascii :=
  match s with
  | EmptyString => None
  | String d EmptyString => Some d
  | String _ rest => last_char rest
  end.

Definition ends_with (s : string) (c : ascii) : bool :=
  match last_char s with
  | Some d => Ascii.eqb c d
  | None => false
  end.

(** The sort key [(start_milliseconds, end_milliseconds)], compared
    lexicographically. *)
Definition key_lt (a b : CaptionSegment) : bool :=
  (start_milliseconds a <? start_milliseconds b)
  || ((start_milliseconds a =? start_milliseconds b)
      && (end_milliseconds a <? end_milliseconds b)).

(** [slice::sort_by_key] is a stable sort; a stable insertion sort
    yields the same permutation. An element is placed after every element
    already inserted whose key is not greater. *)
Fixpoint insert_seg (x : CaptionSegment) (l : list CaptionSegment) :=
  match l with
  | [] => [x]
  | y :: ys => if key_lt x y then x :: y :: ys else y :: insert_seg x ys
  end.

Definition sort_by_key (l : list CaptionSegment) : list CaptionSegment :=
  fold_left (fun acc x => insert_seg x acc) l [].

(** One iteration of the [for segment in segments] loop of [push]. *)
Definition push_step (cutoff_ms : Z)
    (acc : CaptionUpdate * CaptionsStabilizer) (segment : CaptionSegment)
    : CaptionUpdate * CaptionsStabilizer :=
  let (update, self) := acc in
  if starts_with (text segment) "[" && ends_with (text segment) "]" then
    (update, self)
  else if end_milliseconds segment <=? cutoff_ms then
    if end_milliseconds segment
         <=? last_final_end_ms self + dedupe_fuzz_ms self then
      (update, self)
    else
      (mkUpdate (history update ++ [segment]) (active update),
       mkStabilizer (tail_ms self) (dedupe_fuzz_ms self)
         (Z.max (last_final_end_ms self) (end_milliseconds segment)))
  else
    (mkUpdate (history update) (active update ++ [segment]), self).

(** [CaptionsStabilizer::push]: returns the update and the new state. *)
Definition push (self : CaptionsStabilizer) (now_milliseconds : Z)
    (segments : list CaptionSegment) : CaptionUpdate * CaptionsStabilizer :=
  let cutoff_ms := now_milliseconds - tail_ms self in
  fold_left (push_step cutoff_ms) (sort_by_key segments)
    (default_update, self).

(** A session: successive [push] calls, each with its [now_ms] and its
    segments; returns the updates in call order and the final state. *)
Fixpoint push_all (self : CaptionsStabilizer)
    (calls : list (Z * list CaptionSegment))
    : list CaptionUpdate * CaptionsStabilizer :=
  match calls with
  | [] => ([], self)
  | (now, segs) :: rest =>
      let (u, self') := push self now segs in
      let (us, self'') := push_all self' rest in
      (u :: us, self'')
  end.

(** Concatenation of the returned history lists, in return order. *)
Definition session_history (us : list CaptionUpdate) : list CaptionSegment :=
  List.concat (map history us).

End Stabilizer.

(** ** Rolling-window transcription scheduler ([whisper.rs]) *)

Module Whisper.

Import Stabilizer.

(** [milliseconds_to_samples] of [subwin-speech/src/lib.rs]; the product is
    taken in [u64] and cannot overflow for a [u32] rate and duration. *)
Definition milliseconds_to_samples (milliseconds sample_rate : nat) : nat :=
  Nat.div (sample_rate * milliseconds) 1000.

Definition CONTEXT_LENGTH_MILLISECONDS : nat := 3000.
Definition REPEAT_RUN_MILLISECONDS : nat := 500.

(** [char::is_whitespace] on the ASCII range. *)
Definition is_whitespace (c : ascii) : bool :=
  match nat_of_ascii c with
  | 9 | 10 | 11 | 12 | 13 | 32 => true
  | _ => false
  end%nat.

(** [text.trim().is_empty()]: every character is whitespace. *)
Fixpoint trim_is_empty (s : string) : bool :=
  match s with
  | EmptyString => true
  | String c rest => is_whitespace c && trim_is_empty rest
  end.

(** [calculate_samples_rms]: the [f32] samples are widened to [f64]
    (exactly), squared and summed in [f64]. *)
Definition float_of_nat (n : nat) : float :=
  PrimFloat.of_uint63 (Uint63.of_Z (Z.of_nat n)).

Definition calculate_samples_rms (samples_data : list float) : float :=
  match samples_data with
  | [] => 0%float
  | _ =>
      let length := float_of_nat (List.length samples_data) in
      let sum_of_squares :=
        fold_left (fun acc value => (acc + value * value)%float)
          samples_data 0%float in
      PrimFloat.sqrt (sum_of_squares / length)%float
  end.

(** A segment as the engine reports it: its text and its start and end
    timestamps, in centiseconds relative to the decoded slice. *)
Record RawSegment := mkRaw {
  raw_text : string;
  start_timestamp : Z;
  end_timestamp : Z
}.

(** The fields of [WhisperTranscriber]; the engine's own state
    ([whisper_state]) lives behind the engine function below. *)
Record WhisperTranscriber := mkTranscriber {
  since_last_decode : nat;
  scratch_buffer : list float;
  segment_window : list float;
  length_samples : nat;
  repeat_run_samples : nat;
  min_transcode_samples : nat;
  target_rate : nat;
  total_samples_seen : Z
}.

Definition min_transcription_samples (sample_rate : nat) : nat :=
  Nat.div sample_rate 10.

(** [WhisperTranscriber::new] once the engine context has been created. *)
Definition new (target_rate : nat) : WhisperTranscriber :=
  mkTranscriber 0 [] [] 
    (milliseconds_to_samples CONTEXT_LENGTH_MILLISECONDS target_rate)
    (milliseconds_to_samples REPEAT_RUN_MILLISECONDS target_rate)
    (min_transcription_samples target_rate)
    target_rate 0.

(** [accept_samples]: extend, then [drain(..drop)] the oldest samples. *)
Definition accept_samples (self : WhisperTranscriber) (samples : list float)
    : WhisperTranscriber :=
  let window := segment_window self ++ samples in
  let since := (since_last_decode self + List.length samples)%nat in
  let window' :=
    if Nat.ltb (length_samples self) (List.length window)
    then skipn (List.length window - length_samples self) window
    else window in
  mkTranscriber since (scratch_buffer self) window' (length_samples self)
    (repeat_run_samples self) (min_transcode_samples self) (target_rate self)
    (total_samples_seen self + Z.of_nat (List.length samples)).

Definition set_since (self : WhisperTranscriber) (n : nat) :=
  mkTranscriber n (scratch_buffer self) (segment_window self)
    (length_samples self) (repeat_run_samples self)
    (min_transcode_samples self) (target_rate self) (total_samples_seen self).

Definition set_scratch (self : WhisperTranscriber) (b : list float) :=
  mkTranscriber (since_last_decode self) b (segment_window self)
    (length_samples self) (repeat_run_samples self)
    (min_transcode_samples self) (target_rate self) (total_samples_seen self).

(** The result of [try_transcribe]: the segments and the elapsed time. *)
Definition Output : Type := (list CaptionSegment * Z)%type.

Section Scheduler.

(** [f64::log10]. *)
Variable log10 : float -> float.
(** One inference call of the opaque engine ([WhisperState::full] followed
    by [as_iter]); [None] is the [Err] case. *)
Variable full : list float -> option (list RawSegment).
(** The reading of [start.elapsed().as_millis()]. *)
Variable elapsed_ms : Z.

Definition convert_segments (window_start_ms : Z) (raws : list RawSegment)
    : list CaptionSegment :=
  flat_map (fun r =>
    if trim_is_empty (raw_text r) then []
    else [mkSegment (window_start_ms + start_timestamp r * 10)
                    (window_start_ms + end_timestamp r * 10) (raw_text r)])
    raws.

(** The contiguous slice handed to the engine: the window itself, or a
    copy zero-padded to [min_transcode_samples] in [scratch_buffer]. *)
Definition materialize (self : WhisperTranscriber)
    : list float * WhisperTranscriber :=
  if Nat.leb (min_transcode_samples self) (List.length (segment_window self))
  then (segment_window self, self)
  else
    let b := segment_window self
             ++ repeat 0%float (min_transcode_samples self
                                - List.length (segment_window self)) in
    (b, set_scratch self b).

(** [rms == 0.0 || (20.0 * rms.log10()) <= -60.0]. *)
Definition silence_gate (rms : float) : bool :=
  (rms =? 0)%float || (20 * log10 rms <=? -60)%float.

(** [try_transcribe]: the output, the new state, and the slices handed to
    the engine (at most one inference call). *)
Definition try_transcribe (self : WhisperTranscriber)
    : Output * WhisperTranscriber * list (list float) :=
  if Nat.ltb (since_last_decode self) (repeat_run_samples self) then
    (([], 0), self, [])
  else
    let '(transcode_audio, self1) := materialize self in
    let rms := calculate_samples_rms transcode_audio in
    if silence_gate rms then
      (([], 0), set_since self1 0, [])
    else
      let sample_rate := Z.of_nat (target_rate self1) in
      let window_samples := Z.of_nat (List.length transcode_audio) in
      let window_start_ms :=
        Z.quot ((total_samples_seen self1 - window_samples) * 1000)
               sample_rate in
      match full transcode_audio with
      | None => (([], 0), self1, [transcode_audio])
      | Some raws =>
          ((convert_segments window_start_ms raws, elapsed_ms),
           set_since self1 0, [transcode_audio])
      end.

(** The worker's interleaving of the two entry points. *)
Inductive op := Accept (samples : list float) | Transcribe.

Fixpoint run (self : WhisperTranscriber) (ops : list op) : WhisperTranscriber :=
  match ops with
  | [] => self
  | Accept xs :: rest => run (accept_samples self xs) rest
  | Transcribe :: rest =>
      let '(_, self', _) := try_transcribe self in run self' rest
  end.

(** All samples handed to [accept_samples] along [ops], in arrival order. *)
Fixpoint accepted (ops : list op) : list float :=
  match ops with
  | [] => []
  | Accept xs :: rest => xs ++ accepted rest
  | Transcribe :: rest => accepted rest
  end.

End Scheduler.

End Whisper.

(** ** Buffer sizing ([subwin-audio/src/lib.rs], [device.rs]) *)

Module BufferSize.

(** [u32] arithmetic wraps modulo 2^32 (release build). *)
Definition u32 (x : Z) : Z := x mod 2 ^ 32.

Definition FIXED_FRAME_COUNT : Z := 4096.

(** [gcd]: the Euclidean loop; [b] strictly decreases, so [b + 1]
    iterations are enough for it to reach [0]. *)
Fixpoint gcd_loop (fuel : nat) (a b : Z) : Z :=
  match fuel with
  | O => a
  | S fuel' => if b =? 0 then a else gcd_loop fuel' b (a mod b)
  end.

Definition gcd (a b : Z) : Z := gcd_loop (S (Z.to_nat b)) a b.

(** [find_nearest_to]; [None] is the panic of [%] by zero. *)
Definition find_nearest_to (base denominator : Z) : option Z :=
  if denominator =? 0 then None
  else
    let remainder := base mod denominator in
    if u32 (remainder * 2) <=? denominator then Some (base - remainder)
    else Some (u32 (base - remainder + denominator)).

(** [cpal::SupportedBufferSize]. *)
Inductive SupportedBufferSize :=
  | Range (min max : Z)
  | Unknown.

(** [HostInputDevice::target_buffer_size], given the device's default
    input configuration (its buffer size range and sample rate). *)
Definition target_buffer_size (buffer_size : SupportedBufferSize)
    (original_sample_rate target_rate : Z) : option Z :=
  let device_buffer_size :=
    match buffer_size with
    | Range _ max => max
    | Unknown => FIXED_FRAME_COUNT
    end in
  let rate_denominator := gcd original_sample_rate target_rate in
  if rate_denominator =? 0 then None
  else find_nearest_to device_buffer_size
         (original_sample_rate / rate_denominator).

End BufferSize.

(** ** Stereo downmix ([src/audio/mixer.rs]) *)

Module Mixer.

Section Mix.

(** The sample type [T] with its [Add], [Mul] and [FromPrimitive]. *)
Variable T : Type.
Variable add mul : T -> T -> T.
(** [T::from_f32(0.5)]. *)
Variable from_f32_half : option T.

(** [slice[i] = v]; [None] is the out-of-bounds panic. *)
Fixpoint set_nth (l : list T) (i : nat) (v : T) : option (list T) :=
  match l, i with
  | [], _ => None
  | _ :: xs, O => Some (v :: xs)
  | x :: xs, S i' => option_map (cons x) (set_nth xs i' v)
  end.

(** The loop [for i in i..i + k]. *)
Fixpoint mix_loop (half : T) (data : list T) (k i : nat) (acc : list T)
    : option (list T) :=
  match k with
  | O => Some acc
  | S k' =>
      match nth_error data (i * 2), nth_error data (i * 2 + 1) with
      | Some left_channel_sample, Some right_channel_sample =>
          match set_nth acc i
                  (mul (add left_channel_sample right_channel_sample) half) with
          | Some acc' => mix_loop half data k' (S i) acc'
          | None => None
          end
      | _, _ => None
      end
  end.

(** [mix_stereo_to_mono]: the accumulator after the call and the returned
    frame count; [None] is a panic. *)
Definition mix_stereo_to_mono (samples_accumulator samples_frame_data : list T)
    : option (list T * nat) :=
  let frames := Nat.div (List.length samples_frame_data) 2 in
  match from_f32_half with
  | None => None
  | Some half =>
      match mix_loop half samples_frame_data frames 0 samples_accumulator with
      | Some acc => Some (acc, frames)
      | None => None
      end
  end.

End Mix.

End Mixer.

(** ** Fixed-block resampler ([src/audio/resampler.rs]) *)

Module Resampler.

Inductive Result (A E : Type) := Ok (a : A) | Err (e : E).
Arguments Ok {A E} a.
Arguments Err {A E} e.

Section Fixed.

(** The sample type and the [rubato] engine ([FftFixedInOut]), with its
    error type. *)
Variable T : Type.
Variable Engine : Type.
Variable EngineError : Type.
Variable input_frames_next : Engine -> nat.
(** [process_into_buffer] on one channel: the engine's new state, the
    output buffer and the number of frames written. *)
Variable process_into_buffer :
  Engine -> list T -> list T -> Result (Engine * list T * nat) EngineError.

Inductive ResamplerError :=
  | InvalidInputLength (expected actual : nat)
  | ResampleError (e : EngineError).

Record FixedBlockResampler := mkFixed {
  input_buffer : list T;
  output_buffer : list T;
  resampler : Engine
}.

(** [process_callback]: the result, the new state and the slices passed to
    the callback, in call order. *)
Definition process_callback (self : FixedBlockResampler) (input : list T)
    : Result nat ResamplerError * FixedBlockResampler * list (list T) :=
  let expected_len := input_frames_next (resampler self) in
  if negb (Nat.eqb (List.length input) expected_len) then
    (Err (InvalidInputLength expected_len (List.length input)), self, [])
  else
    (* [resize] then [copy_from_slice]: the buffer now holds [input] *)
    let self1 := mkFixed input (output_buffer self) (resampler self) in
    match process_into_buffer (resampler self1) (input_buffer self1)
            (output_buffer self1) with
    | Err e => (Err (ResampleError e), self1, [])
    | Ok (engine', out, output_written) =>
        (Ok output_written, mkFixed input out engine',
         if Nat.ltb 0 output_written then [firstn output_written out] else [])
    end.

End Fixed.

(** [StreamingResampler]: a FIFO of pending input frames in front of the
    same engine. *)
Section Streaming.

Variable T : Type.
Variable Engine : Type.
Variable EngineError : Type.
Variable input_frames_next : Engine -> nat.
Variable process_into_buffer :
  Engine -> list T -> list T -> Result (Engine * list T * nat) EngineError.

Record StreamingResampler := mkStreaming {
  s_resampler : Engine;
  frames_queue : list T;
  s_input_buffer : list T;
  s_output_buffer : list T
}.

(** The [loop] of [process_callback], from [total_written]; each pass moves
    [wanted_len] frames from the queue into the input buffer ([resize]
    then [pop_front] into every slot). [None] is a loop that does not stop
    within [fuel] passes. *)
Fixpoint stream_loop (fuel : nat) (self : StreamingResampler)
    (total_written : nat)
    : option (Result nat (ResamplerError EngineError) * StreamingResampler
              * list (list T)) :=
  match fuel with
  | O => None
  | S fuel' =>
      let wanted_len := input_frames_next (s_resampler self) in
      if Nat.ltb (List.length (frames_queue self)) wanted_len then
        Some (Ok total_written, self, [])
      else
        let inbuf := firstn wanted_len (frames_queue self) in
        let self1 := mkStreaming (s_resampler self)
                       (skipn wanted_len (frames_queue self)) inbuf
                       (s_output_buffer self) in
        match process_into_buffer (s_resampler self1) inbuf
                (s_output_buffer self1) with
        | Err e => Some (Err (ResampleError EngineError e), self1, [])
        | Ok (engine', out, output_written) =>
            let self2 := mkStreaming engine' (frames_queue self1) inbuf out in
            if Nat.ltb 0 output_written then
              match stream_loop fuel' self2 (total_written + output_written) with
              | Some (r, self3, calls) =>
                  Some (r, self3, firstn output_written out :: calls)
              | None => None
              end
            else stream_loop fuel' self2 total_written
        end
  end.

(** [StreamingResampler::process_callback]: [extend] the queue, then run
    the loop. Each pass takes at least one frame when the engine asks for
    some, so the queue length plus one bounds the passes. *)
Definition stream_process_callback (self : StreamingResampler)
    (input : list T)
    : option (Result nat (ResamplerError EngineError) * StreamingResampler
              * list (list T)) :=
  let self1 := mkStreaming (s_resampler self) (frames_queue self ++ input)
                 (s_input_buffer self) (s_output_buffer self) in
  stream_loop (S (List.length (frames_queue self1))) self1 0.

End Streaming.

End Resampler.

(** ** Caption text composition ([transcription_service.rs]) *)

Module Composer.

Import Stabilizer.

Fixpoint drop_ws (l : list ascii) : list ascii :=
  match l with
  | [] => []
  | c :: rest => if Whisper.is_whitespace c then drop_ws rest else l
  end.

(** [str::trim] on ASCII text: leading and trailing whitespace removed. *)
Definition trim (s : string) : string :=
  string_of_list_ascii
    (rev (drop_ws (rev (drop_ws (list_ascii_of_string s))))).

(** [slice::join(sep)]. *)
Fixpoint join (sep : string) (parts : list string) : string :=
  match parts with
  | [] => ""
  | [p] => p
  | p :: rest => p ++ sep ++ join sep rest
  end.

(** [segments_to_text]: the trimmed non-empty texts joined by spaces. *)
Definition segments_to_text (segments : list CaptionSegment) : string :=
  join " " (filter (fun t => negb (String.eqb t ""))
                   (map (fun segment => trim (text segment)) segments)).

(** [compose_caption_text]. *)
Definition compose_caption_text (history active : list CaptionSegment)
    : string :=
  let history_text := segments_to_text history in
  let active_text := segments_to_text active in
  if String.eqb history_text "" then active_text
  else if String.eqb active_text "" then history_text
  else history_text ++ " " ++ active_text.

End Composer.

(** ** The capture callback and the transcription worker
    ([transcription_service.rs]) *)

Module Worker.

Import Stabilizer Resampler.

(** [Vec::resize(n, 0.0)]. *)
Definition resize (l : list float) (n : nat) : list float :=
  firstn n l ++ repeat 0%float (n - List.length l).

Section Capture.

(** The ring-buffer producer and its [push_slice]. *)
Variable P : Type.
Variable push_slice : P -> list float -> P.
(** The [rubato] engine behind the [StreamingResampler<f32>]. *)
Variable Engine : Type.
Variable EngineError : Type.
Variable input_frames_next : Engine -> nat.
Variable process_into_buffer :
  Engine -> list float -> list float ->
  Result (Engine * list float * nat) EngineError.

Record ResampleCallbackState := mkCallbackState {
  channels : nat;
  target_buffer_size : nat;
  cb_resampler : StreamingResampler float Engine;
  samples_accumulator : list float
}.

(** [ResampleCallbackState::process_input]: the new callback state and
    producer; [None] is a panic (or a resampler loop that does not stop). *)
Definition process_input (self : ResampleCallbackState) (data : list float)
    (producer : P) : option (ResampleCallbackState * P) :=
  let expected_samples := (target_buffer_size self * channels self)%nat in
  if negb (Nat.eqb (List.length data) expected_samples) then
    Some (self, producer)
  else if Nat.eqb (channels self) 0 then None
  else
    let received_frames := Nat.div (List.length data) (channels self) in
    let acc := resize (samples_accumulator self) received_frames in
    match Mixer.mix_stereo_to_mono float PrimFloat.add PrimFloat.mul
            (Some 0.5%float) acc data with
    | None => None
    | Some (acc', _) =>
        match stream_process_callback float Engine EngineError
                input_frames_next process_into_buffer
                (cb_resampler self) acc' with
        | None => None
        | Some (_, resampler', calls) =>
            Some (mkCallbackState (channels self) (target_buffer_size self)
                    resampler' acc',
                  fold_left push_slice calls producer)
        end
    end.

End Capture.

Definition TARGET_RATE : Z := 16000.
Definition STABILIZER_WINDOW_MILLISECONDS : Z := 1500.

Record WorkerState := mkWorker {
  transcriber : Whisper.WhisperTranscriber;
  stabilizer : CaptionsStabilizer;
  worker_total_samples_seen : Z;
  history_segments : list CaptionSegment;
  active_segments : list CaptionSegment;
  last_sent_text : string
}.

Definition worker_new : WorkerState :=
  mkWorker (Whisper.new (Z.to_nat TARGET_RATE))
    (Stabilizer.new STABILIZER_WINDOW_MILLISECONDS) 0 [] [] "".

Section Loop.

Variable log10 : float -> float.
Variable full : list float -> option (list Whisper.RawSegment).
Variable elapsed_ms : Z.

(** One pass of the worker [loop] over the slice [pop_slice] returned;
    the message is the [TranscriptionStateUpdate] sent, if any. *)
Definition worker_step (self : WorkerState) (chunk : list float)
    : WorkerState * option (Z * string) :=
  if Nat.eqb (List.length chunk) 0 then (self, None)
  else
    let total := worker_total_samples_seen self + Z.of_nat (List.length chunk) in
    let tr := Whisper.accept_samples (transcriber self) chunk in
    let '((segments, duration), tr', _) :=
      Whisper.try_transcribe log10 full elapsed_ms tr in
    let now_milliseconds := Z.quot (total * 1000) TARGET_RATE in
    let (update, stab') := push (stabilizer self) now_milliseconds segments in
    let skip hs acts := (mkWorker tr' stab' total hs acts (last_sent_text self),
                         None) in
    match active update, history update with
    | [], [] => skip (history_segments self) (active_segments self)
    | _, _ =>
        let hs := history_segments self ++ history update in
        let acts := active update in
        let caption_text := Composer.compose_caption_text hs acts in
        if String.eqb caption_text "" || String.eqb caption_text
                                           (last_sent_text self)
        then skip hs acts
        else (mkWorker tr' stab' total hs acts caption_text,
              Some (duration, caption_text))
    end.

(** The worker over successive popped slices: the final state and the
    messages sent, in order. *)
Fixpoint worker_run (self : WorkerState) (chunks : list (list float))
    : WorkerState * list (Z * string) :=
  match chunks with
  | [] => (self, [])
  | c :: rest =>
      let (self', msg) := worker_step self c in
      let (self'', msgs) := worker_run self' rest in
      (self'', match msg with Some m => m :: msgs | None => msgs end)
  end.

End Loop.

End Worker.

(** ** Stabilizer properties *)

Module StabilizerFacts.

Import Stabilizer.

(** [chain f p l q]: starting from the end time [p], every segment of [l]
    ends more than [f] after the end of the one before it, and the last end
    is [q]. *)
Inductive chain (f : Z) : Z -> list CaptionSegment -> Z -> Prop :=
  | chain_nil p : chain f p [] p
  | chain_cons p s l q :
      p + f < end_milliseconds s ->
      chain f (end_milliseconds s) l q ->
      chain f p (s :: l) q.

(** The stream property as the spec words it: each segment starts no
    earlier than the one before it and overlaps it by at most [fuzz]. *)
Fixpoint ordered_with_fuzz (fuzz : Z) (l : list CaptionSegment) : bool :=
  match l with
  | s1 :: ((s2 :: _) as rest) =>
      (start_milliseconds s1 <=? start_milliseconds s2)
      && (end_milliseconds s1 - start_milliseconds s2 <=? fuzz)
      && ordered_with_fuzz fuzz rest
  | _ => true
  end.

Lemma chain_snoc f p l q s :
  chain f p l q -> q + f < end_milliseconds s ->
  chain f p (l ++ [s]) (end_milliseconds s).
Proof.
  induction 1 as [p | p s' l q Hlt Hc IH]; intros Hs; simpl.
  - constructor; [exact Hs | constructor].
  - constructor; [exact Hlt | apply IH; exact Hs].
Qed.

Lemma chain_app f p l1 q l2 r :
  chain f p l1 q -> chain f q l2 r -> chain f p (l1 ++ l2) r.
Proof.
  induction 1; simpl; intros; [assumption | constructor; auto].
Qed.

Lemma fold_push_step_last cutoff l acc :
  last_final_end_ms (snd acc)
  <= last_final_end_ms (snd (fold_left (push_step cutoff) l acc)).
Proof.
  revert acc; induction l as [| s l IH]; intros [u self]; simpl; [lia |].
  eapply Z.le_trans; [| apply IH].
  unfold push_step.
  destruct (_ && _); simpl; [lia |].
  destruct (_ <=? cutoff); simpl; [| lia].
  destruct (_ <=? _); simpl; lia.
Qed.

Lemma push_step_chain cutoff p u self s :
  dedupe_fuzz_ms self = 80 ->
  chain 80 p (history u) (last_final_end_ms self) ->
  chain 80 p (history (fst (push_step cutoff (u, self) s)))
    (last_final_end_ms (snd (push_step cutoff (u, self) s)))
  /\ dedupe_fuzz_ms (snd (push_step cutoff (u, self) s)) = 80.
Proof.
  intros Hf Hc. unfold push_step.
  destruct (_ && _); [auto |].
  destruct (end_milliseconds s <=? cutoff); [| auto].
  destruct (end_milliseconds s <=? last_final_end_ms self + dedupe_fuzz_ms self)
    eqn:E; [auto |].
  apply Z.leb_gt in E. simpl. split; [| exact Hf].
  rewrite Z.max_r by lia.
  apply (chain_snoc _ _ _ (last_final_end_ms self)); [exact Hc | lia].
Qed.

Lemma fold_push_step_chain cutoff p l u self :
  dedupe_fuzz_ms self = 80 ->
  chain 80 p (history u) (last_final_end_ms self) ->
  chain 80 p (history (fst (fold_left (push_step cutoff) l (u, self))))
    (last_final_end_ms (snd (fold_left (push_step cutoff) l (u, self))))
  /\ dedupe_fuzz_ms (snd (fold_left (push_step cutoff) l (u, self))) = 80.
Proof.
  revert u self; induction l as [| s l IH]; intros u self Hf Hc;
    cbn [fold_left]; [auto |].
  destruct (push_step_chain cutoff p u self s Hf Hc) as [H1 H2].
  destruct (push_step cutoff (u, self) s) as [u' self'].
  apply IH; assumption.
Qed.

Lemma push_chain self now segs :
  dedupe_fuzz_ms self = 80 ->
  chain 80 (last_final_end_ms self) (history (fst (push self now segs)))
    (last_final_end_ms (snd (push self now segs)))
  /\ dedupe_fuzz_ms (snd (push self now segs)) = 80.
Proof.
  intros Hf. unfold push.
  apply fold_push_step_chain; [exact Hf | constructor].
Qed.

Lemma push_all_chain self calls :
  dedupe_fuzz_ms self = 80 ->
  chain 80 (last_final_end_ms self)
    (session_history (fst (push_all self calls)))
    (last_final_end_ms (snd (push_all self calls))).
Proof.
  revert self; induction calls as [| [now segs] calls IH]; intros self Hf;
    simpl; [constructor |].
  destruct (push self now segs) as [u self'] eqn:Ep.
  destruct (push_all self' calls) as [us self''] eqn:Ea.
  simpl. unfold session_history in *. simpl.
  assert (H := push_chain self now segs Hf).
  rewrite Ep in H. simpl in H. destruct H as [H1 H2].
  specialize (IH self' H2). rewrite Ea in IH. simpl in IH.
  exact (chain_app _ _ _ _ _ _ H1 IH).
Qed.

(** The segments of scenario S5. *)
Definition seg_a := mkSegment 0 500 "a".
Definition seg_b := mkSegment 500 1000 "b".
Definition seg_c := mkSegment 1800 2000 "c".

(** C1 (as stated): with [tail_ms = 1500], one push at [now = 2000] of
    [a = {0,500}], [b = {500,1000}], [c = {1800,2000}] returns history
    [[a; b]] and active [[c]]. False: the cutoff is [500], so [b] is still
    active. *)
Lemma C1_counterexample :
  ~ (history (fst (push (new 1500) 2000 [seg_a; seg_b; seg_c])) = [seg_a; seg_b]
     /\ active (fst (push (new 1500) 2000 [seg_a; seg_b; seg_c])) = [seg_c]).
Proof. vm_compute. intros [H _]. discriminate H. Qed.

(** C1 (amended): with [tail_ms = 1500], one push at [now = 2000] of
    [a], [b], [c] from the initial state has cutoff [500]: it returns history
    [[a]] and active [[b; c]], and [last_final_end_ms] becomes [500]. *)
Lemma C1_push_scenario_S5 :
  push (new 1500) 2000 [seg_a; seg_b; seg_c]
  = (mkUpdate [seg_a] [seg_b; seg_c], mkStabilizer 1500 80 500).
Proof. reflexivity. Qed.

(** C3: [push] never decreases [last_final_end_ms], whatever [now_ms]
    and segments it is given. *)
Theorem C3_last_final_end_monotone self now segs :
  last_final_end_ms self <= last_final_end_ms (snd (push self now segs)).
Proof.
  unfold push.
  apply (fold_push_step_last _ _ (default_update, self)).
Qed.

(** Two segments whose second one starts inside the first. *)
Definition seg_long := mkSegment 0 1000 "one".
Definition seg_overlap := mkSegment 500 1200 "two".

(** C2 (as stated): the session's history stream is ordered by start and
    each segment overlaps the previous one by at most 80 ms. False: one push
    at [now = 5000] of [{0,1000}] and [{500,1200}] finalizes both, and they
    overlap by 500 ms. *)
Lemma C2_counterexample :
  session_history (fst (push_all (new 1500) [(5000, [seg_long; seg_overlap])]))
    = [seg_long; seg_overlap]
  /\ ordered_with_fuzz 80
       (session_history (fst (push_all (new 1500)
                                [(5000, [seg_long; seg_overlap])])))
     = false.
Proof. split; reflexivity. Qed.

(** C2 (amended): over any sequence of pushes from the initial state, the
    concatenated history lists form a chain of end times: each finalized
    segment ends more than [dedupe_fuzz_ms = 80] ms after the previous one
    (the first after [0]), and [last_final_end_ms] is the last of them. *)
Theorem C2_history_end_chain tail calls :
  chain 80 0 (session_history (fst (push_all (new tail) calls)))
    (last_final_end_ms (snd (push_all (new tail) calls))).
Proof. apply (push_all_chain (new tail) calls). reflexivity. Qed.

(** A bracket-tagged marker as the engine emits it, after a space. *)
Definition seg_blank := mkSegment 0 1000 " [BLANK_AUDIO]".

(** C5: a segment whose trimmed text is [[BLANK_AUDIO]] but which starts
    with a space is not dropped: pushed below the cutoff it is finalized. *)
Theorem C5_untrimmed_marker_finalized :
  history (fst (push (new 1500) 5000 [seg_blank])) = [seg_blank].
Proof. reflexivity. Qed.

End StabilizerFacts.

(** ** Scheduler properties *)

Module WhisperFacts.

Import Whisper.

(** The worker's transcriber after the interleaving [ops], starting from
    [WhisperTranscriber::new(rate)]. *)
Definition session log10 full elapsed_ms (rate : nat) (ops : list op) :=
  run log10 full elapsed_ms (new rate) ops.

(** Invariant of every reachable state, [A] being all samples accepted so
    far: the constants are those of [new], the window holds the last
    [length_samples] samples of [A], [since_last_decode] counts no more than
    [A], and the scratch buffer was never filled. *)
Definition wf (rate : nat) (A : list float) (s : WhisperTranscriber) : Prop :=
  length_samples s = milliseconds_to_samples CONTEXT_LENGTH_MILLISECONDS rate
  /\ repeat_run_samples s
     = milliseconds_to_samples REPEAT_RUN_MILLISECONDS rate
  /\ min_transcode_samples s = min_transcription_samples rate
  /\ segment_window s = skipn (List.length A - length_samples s) A
  /\ (since_last_decode s <= List.length A)%nat
  /\ scratch_buffer s = [].

Lemma wf_new rate : wf rate [] (new rate).
Proof. repeat split; reflexivity. Qed.

Lemma skipn_window (A xs : list float) (L : nat) :
  (if Nat.ltb L (List.length (skipn (List.length A - L) A ++ xs))
   then skipn (List.length (skipn (List.length A - L) A ++ xs) - L)
          (skipn (List.length A - L) A ++ xs)
   else skipn (List.length A - L) A ++ xs)
  = skipn (List.length (A ++ xs) - L) (A ++ xs).
Proof.
  assert (E : skipn (List.length A - L) A ++ xs
              = skipn (List.length A - L) (A ++ xs)).
  { rewrite skipn_app. replace (List.length A - L - List.length A)%nat
      with 0%nat by lia. reflexivity. }
  rewrite E, length_skipn, !length_app.
  destruct (Nat.ltb_spec L (List.length A + List.length xs
                            - (List.length A - L))).
  - rewrite skipn_skipn. f_equal. lia.
  - f_equal. lia.
Qed.

Lemma accept_wf rate A s xs :
  wf rate A s -> wf rate (A ++ xs) (accept_samples s xs).
Proof.
  intros (HL & HR & HM & HW & HS & HB).
  unfold accept_samples, wf; simpl.
  repeat split; try assumption.
  - rewrite HW. apply skipn_window.
  - rewrite length_app. lia.
Qed.

Lemma wf_window_length rate A s :
  wf rate A s ->
  List.length (segment_window s)
  = Nat.min (List.length A)
      (milliseconds_to_samples CONTEXT_LENGTH_MILLISECONDS rate).
Proof.
  intros (HL & _ & _ & HW & _). rewrite HW, length_skipn, HL. lia.
Qed.

(** Past the fast exit, a reachable window holds at least
    [min_transcode_samples] samples. *)
Lemma wf_window_enough rate A s :
  wf rate A s -> (repeat_run_samples s <= since_last_decode s)%nat ->
  (min_transcode_samples s <= List.length (segment_window s))%nat.
Proof.
  intros Hwf Hs. rewrite (wf_window_length _ _ _ Hwf).
  destruct Hwf as (HL & HR & HM & HW & HS & HB).
  rewrite HM. rewrite HR in Hs.
  unfold milliseconds_to_samples, min_transcription_samples,
    CONTEXT_LENGTH_MILLISECONDS, REPEAT_RUN_MILLISECONDS in *.
  pose proof (Nat.div_mod (rate * 500) 1000 ltac:(lia)).
  pose proof (Nat.mod_upper_bound (rate * 500) 1000 ltac:(lia)).
  pose proof (Nat.div_mod (rate * 3000) 1000 ltac:(lia)).
  pose proof (Nat.mod_upper_bound (rate * 3000) 1000 ltac:(lia)).
  pose proof (Nat.div_mod rate 10 ltac:(lia)).
  pose proof (Nat.mod_upper_bound rate 10 ltac:(lia)).
  lia.
Qed.

Lemma materialize_window s :
  (min_transcode_samples s <= List.length (segment_window s))%nat ->
  materialize s = (segment_window s, s).
Proof.
  intros H. unfold materialize. apply Nat.leb_le in H. rewrite H.
  reflexivity.
Qed.

Lemma try_transcribe_wf log10 full elapsed_ms rate A s :
  wf rate A s -> wf rate A (snd (fst (try_transcribe log10 full elapsed_ms s))).
Proof.
  intros Hwf. unfold try_transcribe.
  destruct (Nat.ltb_spec (since_last_decode s) (repeat_run_samples s))
    as [Hlt | Hge]; [exact Hwf |].
  rewrite (materialize_window s (wf_window_enough _ _ _ Hwf Hge)).
  destruct Hwf as (HL & HR & HM & HW & HS & HB).
  destruct (silence_gate log10 _);
    [| destruct (full _)];
    unfold wf, set_since; simpl; repeat split; auto; lia.
Qed.

Lemma run_wf log10 full elapsed_ms rate A s ops :
  wf rate A s ->
  wf rate (A ++ accepted ops) (run log10 full elapsed_ms s ops).
Proof.
  revert A s; induction ops as [| [xs |] ops IH]; intros A s Hwf; simpl.
  - rewrite app_nil_r. exact Hwf.
  - rewrite app_assoc. apply IH. apply accept_wf. exact Hwf.
  - pose proof (try_transcribe_wf log10 full elapsed_ms rate A s Hwf) as H.
    destruct (try_transcribe log10 full elapsed_ms s) as [[o s'] c].
    apply IH. exact H.
Qed.

Lemma session_wf log10 full elapsed_ms rate ops :
  wf rate (accepted ops) (session log10 full elapsed_ms rate ops).
Proof. apply (run_wf _ _ _ _ [] (new rate) ops (wf_new rate)). Qed.

(** C6: once past the fast exit, if the slice to decode passes the silence
    gate ([rms == 0] or [20 log10 rms <= -60]), [try_transcribe] returns
    [([], 0)] without calling the engine, and [since_last_decode] is reset
    to [0]. *)
Theorem C6_silence_gate log10 full elapsed_ms s :
  (repeat_run_samples s <= since_last_decode s)%nat ->
  silence_gate log10 (calculate_samples_rms (fst (materialize s))) = true ->
  exists s',
    try_transcribe log10 full elapsed_ms s = (([], 0), s', [])
    /\ since_last_decode s' = 0%nat.
Proof.
  intros Hge Hg. unfold try_transcribe.
  destruct (Nat.ltb_spec (since_last_decode s) (repeat_run_samples s));
    [lia |].
  destruct (materialize s) as [audio s1]. simpl in Hg. rewrite Hg.
  exists (set_since s1 0). split; reflexivity.
Qed.

(** The state after 50 silent samples at rate 100 (fast-exit threshold
    50 samples). *)
Definition silent_state : WhisperTranscriber :=
  accept_samples (new 100) (repeat 0%float 50).

Lemma C6_silence_gate_witness :
  exists s',
    try_transcribe (fun _ => 0%float) (fun _ => None) 7 silent_state
    = (([], 0), s', []) /\ since_last_decode s' = 0%nat.
Proof.
  apply C6_silence_gate.
  - vm_compute. lia.
  - vm_compute. reflexivity.
Defined.

(** C7: after any interleaving of [accept_samples] and [try_transcribe]
    from [new rate], the window holds at most
    [L = 3000 * rate / 1000] samples, its length is
    [min (accepted, L)], and it is exactly the last samples accepted, in
    arrival order. *)
Theorem C7_rolling_window log10 full elapsed_ms rate ops :
  let s := session log10 full elapsed_ms rate ops in
  let L := milliseconds_to_samples CONTEXT_LENGTH_MILLISECONDS rate in
  (List.length (segment_window s) <= L)%nat
  /\ List.length (segment_window s) = Nat.min (List.length (accepted ops)) L
  /\ segment_window s = skipn (List.length (accepted ops) - L) (accepted ops).
Proof.
  intros s L.
  pose proof (session_wf log10 full elapsed_ms rate ops) as Hwf.
  pose proof (wf_window_length _ _ _ Hwf) as Hlen.
  fold s in Hwf, Hlen.
  destruct Hwf as (HL & _ & _ & HW & _).
  split; [| split]; [lia | exact Hlen |].
  rewrite HW, HL. reflexivity.
Qed.

(** C10: in every reachable state where [try_transcribe] passes the fast
    exit, the window already holds [min_transcode_samples] samples, so the
    slice is the window itself and the zero-padding branch is not taken; the
    scratch buffer is never filled. *)
Theorem C10_padding_unreachable log10 full elapsed_ms rate ops :
  let s := session log10 full elapsed_ms rate ops in
  (repeat_run_samples s <= since_last_decode s)%nat ->
  (min_transcode_samples s <= List.length (segment_window s))%nat
  /\ materialize s = (segment_window s, s)
  /\ scratch_buffer s = [].
Proof.
  intros s Hge.
  pose proof (session_wf log10 full elapsed_ms rate ops) as Hwf.
  fold s in Hwf.
  pose proof (wf_window_enough _ _ _ Hwf Hge) as Henough.
  split; [exact Henough | split; [apply materialize_window; exact Henough |]].
  destruct Hwf as (_ & _ & _ & _ & _ & HB). exact HB.
Qed.

(** Thirty silent samples, a decode attempt, then twenty more samples at
    rate 100 (fast-exit threshold 50, minimum slice 10). *)
Definition c10_ops : list op :=
  [Accept (repeat 0%float 30); Transcribe; Accept (repeat 1%float 20)].

Definition c10_state : WhisperTranscriber :=
  session (fun _ => 0%float) (fun _ => None) 0 100 c10_ops.

Lemma C10_padding_unreachable_witness :
  (repeat_run_samples c10_state <= since_last_decode c10_state)%nat
  /\ (min_transcode_samples c10_state
      <= List.length (segment_window c10_state))%nat
  /\ materialize c10_state = (segment_window c10_state, c10_state)
  /\ scratch_buffer c10_state = [].
Proof.
  assert (H : (repeat_run_samples c10_state
               <= since_last_decode c10_state)%nat)
    by (vm_compute; lia).
  split; [exact H |].
  exact (C10_padding_unreachable (fun _ => 0%float) (fun _ => None) 0 100
           c10_ops H).
Defined.

End WhisperFacts.

(** ** Buffer-sizing properties *)

Module BufferSizeFacts.

Import BufferSize.

(** The shipped sizing of the examples in the spec. *)
Example nearest_examples :
  find_nearest_to 48000 3 = Some 48000 /\ find_nearest_to 4097 3 = Some 4098
  /\ find_nearest_to 4096 3 = Some 4095.
Proof. repeat split; reflexivity. Qed.

(** Off ties, [find_nearest_to] returns the nearest multiple (for inputs
    where no [u32] wrap-around occurs); on a tie it returns the lower one. *)
Lemma find_nearest_to_spec base d :
  0 <= base -> 0 < d -> 2 * d < 2 ^ 32 -> base + d < 2 ^ 32 ->
  exists r, find_nearest_to base d = Some r /\ r mod d = 0
  /\ (2 * (base mod d) < d -> r = base - base mod d)
  /\ (2 * (base mod d) = d -> r = base - base mod d)
  /\ (d < 2 * (base mod d) -> r = base - base mod d + d).
Proof.
  intros Hb Hd Hd2 Hbd.
  pose proof (Z.mod_pos_bound base d Hd) as Hm.
  pose proof (Z.div_mod base d ltac:(lia)) as Hdm.
  unfold find_nearest_to, u32.
  destruct (Z.eqb_spec d 0); [lia |].
  rewrite (Z.mod_small (base mod d * 2)) by lia.
  destruct (Z.leb_spec (base mod d * 2) d).
  - eexists; split; [reflexivity |].
    split; [| repeat split; intros; lia].
    replace (base - base mod d) with (d * (base / d)) by lia.
    rewrite Z.mul_comm. apply Z.mod_mul. lia.
  - rewrite (Z.mod_small (base - base mod d + d)) by lia.
    eexists; split; [reflexivity |].
    split; [| repeat split; intros; lia].
    replace (base - base mod d + d) with ((base / d + 1) * d) by lia.
    apply Z.mod_mul. lia.
Qed.

(** C4: a device at 32000 Hz with maximum block 4095 gives the
    denominator [32000 / gcd(32000, 16000) = 2]; 4095 lies halfway between
    4094 and 4096, and the chosen size is 4094, not 4096. *)
Theorem C4_tie_rounds_down :
  gcd 32000 16000 = 16000
  /\ target_buffer_size (Range 0 4095) 32000 16000 = Some 4094.
Proof. split; reflexivity. Qed.

(** When the backend reports an unknown size, [4096] is used. *)
Example unknown_falls_back :
  target_buffer_size Unknown 48000 16000 = find_nearest_to 4096 3.
Proof. reflexivity. Qed.

End BufferSizeFacts.

(** ** Downmix properties *)

Module MixerFacts.

Import Mixer.

Lemma set_nth_spec {T} (l : list T) i v :
  (i < List.length l)%nat ->
  exists l', set_nth T l i v = Some l' /\ List.length l' = List.length l
  /\ nth_error l' i = Some v
  /\ (forall j, j <> i -> nth_error l' j = nth_error l j).
Proof.
  revert i; induction l as [| x xs IH]; intros i Hi; simpl in Hi; [lia |].
  destruct i as [| i]; simpl.
  - eexists; split; [reflexivity |]. repeat split; auto.
    intros [| j] Hj; [congruence | reflexivity].
  - destruct (IH i ltac:(lia)) as (l' & E & Hlen & Hi' & Ho).
    rewrite E. simpl. eexists; split; [reflexivity |].
    repeat split; simpl; auto.
    intros [| j] Hj; simpl; auto.
Qed.

Lemma mix_loop_spec {T} add mul (half : T) data k :
  forall i acc,
  (i + k <= List.length acc)%nat -> ((i + k) * 2 <= List.length data)%nat ->
  exists acc', mix_loop T add mul half data k i acc = Some acc'
  /\ List.length acc' = List.length acc
  /\ (forall j, (j < i \/ i + k <= j)%nat -> nth_error acc' j = nth_error acc j)
  /\ (forall j l r, (i <= j < i + k)%nat ->
        nth_error data (j * 2) = Some l ->
        nth_error data (j * 2 + 1) = Some r ->
        nth_error acc' j = Some (mul (add l r) half)).
Proof.
  induction k as [| k IH]; intros i acc Hacc Hdata; simpl.
  - eexists; split; [reflexivity |]. repeat split; auto.
    intros; lia.
  - destruct (nth_error data (i * 2)) as [l |] eqn:El;
      [| apply nth_error_None in El; lia].
    destruct (nth_error data (i * 2 + 1)) as [r |] eqn:Er;
      [| apply nth_error_None in Er; lia].
    destruct (set_nth_spec acc i (mul (add l r) half) ltac:(lia))
      as (acc1 & E1 & Hlen1 & Hi1 & Ho1).
    rewrite E1.
    destruct (IH (S i) acc1 ltac:(lia) ltac:(lia))
      as (acc' & E' & Hlen' & Ho' & Hw').
    exists acc'. split; [exact E' |]. split; [lia |]. split.
    + intros j Hj. rewrite Ho' by lia. apply Ho1. lia.
    + intros j l' r' Hj Hl Hr.
      destruct (Nat.eq_dec j i) as [-> | Hne].
      * rewrite Ho' by lia. rewrite Hi1.
        rewrite El in Hl. rewrite Er in Hr. congruence.
      * apply (Hw' j); auto. lia.
Qed.

(** C8: with [T::from_f32(0.5)] a half (so that [x * half = x / 2]) and an
    output slice of at least [len(x) / 2] frames, [mix_stereo_to_mono] writes
    [out[i] = (x[2i] + x[2i+1]) / 2] for every frame [i < len(x) / 2] and
    returns [len(x) / 2]. *)
Theorem C8_downmix_mean {T} (add mul div : T -> T -> T) (half two : T)
    (Hhalf : forall x, mul x half = div x two) (out x : list T) :
  (Nat.div (List.length x) 2 <= List.length out)%nat ->
  exists out', mix_stereo_to_mono T add mul (Some half) out x
               = Some (out', Nat.div (List.length x) 2)
  /\ forall i l r, (i < Nat.div (List.length x) 2)%nat ->
       nth_error x (2 * i) = Some l -> nth_error x (2 * i + 1) = Some r ->
       nth_error out' i = Some (div (add l r) two).
Proof.
  intros Hout. unfold mix_stereo_to_mono.
  pose proof (Nat.div_mod (List.length x) 2 ltac:(lia)).
  destruct (mix_loop_spec add mul half x (Nat.div (List.length x) 2) 0 out
              ltac:(lia) ltac:(lia)) as (out' & E & _ & _ & Hw).
  rewrite E. exists out'. split; [reflexivity |].
  intros i l r Hi Hl Hr. rewrite <- Hhalf.
  apply (Hw i); [lia | rewrite Nat.mul_comm; exact Hl |].
  rewrite Nat.mul_comm; exact Hr.
Qed.

(** Rational samples, where [x * (1/2)] and [x / 2] coincide. *)
Lemma C8_downmix_mean_witness :
  (Nat.div 4 2 <= 2)%nat
  /\ exists out', mix_stereo_to_mono Q Qplus Qmult (Some (1 # 2))
                   [0; 0]%Q [1; 3; 2; 4]%Q = Some (out', 2%nat)
  /\ forall i l r, (i < 2)%nat ->
       nth_error [1; 3; 2; 4]%Q (2 * i) = Some l ->
       nth_error [1; 3; 2; 4]%Q (2 * i + 1) = Some r ->
       nth_error out' i = Some (Qdiv (Qplus l r) 2).
Proof.
  split; [simpl; lia |].
  apply (C8_downmix_mean Qplus Qmult Qdiv (1 # 2) 2%Q (fun x => eq_refl)
           [0; 0]%Q [1; 3; 2; 4]%Q).
  simpl. lia.
Defined.

End MixerFacts.

(** ** Fixed-block resampler properties *)

Module ResamplerFacts.

Import Resampler.
Local Open Scope nat_scope.

(** C9: an input whose length differs from the engine's required block
    size [input_frames_next] is rejected with
    [InvalidInputLength {expected, actual}]; the callback is not invoked and
    the state is unchanged. *)
Theorem C9_fixed_block_rejects {T Engine EngineError}
    (input_frames_next : Engine -> nat)
    (process_into_buffer : Engine -> list T -> list T ->
                           Result (Engine * list T * nat) EngineError)
    (self : FixedBlockResampler T Engine) (input : list T) :
  List.length input <> input_frames_next (resampler T Engine self) ->
  process_callback T Engine EngineError input_frames_next process_into_buffer
    self input
  = (Err (InvalidInputLength EngineError
            (input_frames_next (resampler T Engine self))
            (List.length input)), self, []).
Proof.
  intros Hne. unfold process_callback.
  destruct (Nat.eqb_spec (List.length input)
              (input_frames_next (resampler T Engine self))); [lia |].
  reflexivity.
Qed.

(** An engine whose block size is 1024 (the engine state is the block
    size itself), fed 1023 samples. *)
Definition block_1024 : FixedBlockResampler nat nat :=
  mkFixed nat nat (repeat 0%nat 1024) (repeat 0%nat 1024) 1024%nat.

Lemma C9_fixed_block_rejects_witness :
  List.length (repeat 0%nat 1023) <> 1024%nat
  /\ process_callback nat nat unit (fun n => n) (fun _ _ _ => Err tt)
       block_1024 (repeat 0%nat 1023)
     = (Err (InvalidInputLength unit 1024 1023), block_1024, []).
Proof.
  split; [rewrite repeat_length; lia |].
  apply (C9_fixed_block_rejects (fun n => n) (fun _ _ _ => Err tt)
           block_1024 (repeat 0%nat 1023)).
  rewrite repeat_length. simpl. lia.
Defined.

End ResamplerFacts.

(** ** Further stabilizer properties *)

Module StabilizerExtra.

Import Stabilizer.

(** [a] is not after [b] in the [(start, end)] order. *)
Definition key_le (a b : CaptionSegment) : Prop := key_lt b a = false.

Definition bracketed (s : CaptionSegment) : bool :=
  starts_with (text s) "[" && ends_with (text s) "]".

Lemma key_lt_false_iff a b :
  key_lt a b = false <->
  (start_milliseconds b < start_milliseconds a
   \/ (start_milliseconds b = start_milliseconds a
       /\ end_milliseconds b <= end_milliseconds a)).
Proof.
  unfold key_lt. rewrite orb_false_iff, andb_false_iff, Z.ltb_ge, Z.eqb_neq,
    Z.ltb_ge. lia.
Qed.

Lemma key_lt_true_le a b : key_lt a b = true -> key_le a b.
Proof.
  unfold key_le. intros H. apply key_lt_false_iff.
  unfold key_lt in H. apply orb_true_iff in H.
  rewrite andb_true_iff, Z.ltb_lt, Z.eqb_eq, Z.ltb_lt in H. lia.
Qed.

Lemma key_le_trans a b c : key_le a b -> key_le b c -> key_le a c.
Proof. unfold key_le. rewrite !key_lt_false_iff. lia. Qed.

Lemma insert_seg_perm x l : Permutation (insert_seg x l) (x :: l).
Proof.
  induction l as [| y ys IH]; simpl; [auto |].
  destruct (key_lt x y); [auto |].
  eapply perm_trans; [apply perm_skip, IH | apply perm_swap].
Qed.

Lemma insert_seg_sorted x l :
  StronglySorted key_le l -> StronglySorted key_le (insert_seg x l).
Proof.
  induction l as [| y ys IH]; intros Hs; simpl.
  - repeat constructor.
  - inversion Hs as [| ? ? Hys Hall]; subst.
    destruct (key_lt x y) eqn:E.
    + constructor; [exact Hs |]. constructor; [apply key_lt_true_le; exact E |].
      eapply Forall_impl; [| exact Hall].
      intros z Hz. apply (key_le_trans _ y); [apply key_lt_true_le; exact E | exact Hz].
    + constructor; [apply IH; exact Hys |].
      apply (Permutation_Forall (Permutation_sym (insert_seg_perm x ys))).
      constructor; [exact E | exact Hall].
Qed.

Lemma sort_by_key_spec l :
  Permutation (sort_by_key l) l /\ StronglySorted key_le (sort_by_key l).
Proof.
  unfold sort_by_key.
  assert (G : forall acc, StronglySorted key_le acc ->
    Permutation (fold_left (fun acc x => insert_seg x acc) l acc) (acc ++ l)
    /\ StronglySorted key_le (fold_left (fun acc x => insert_seg x acc) l acc)).
  { induction l as [| x l IH]; intros acc Hs; simpl.
    - rewrite app_nil_r. auto.
    - destruct (IH (insert_seg x acc) (insert_seg_sorted x acc Hs)) as [P S].
      split; [| exact S].
      eapply perm_trans; [exact P |].
      eapply perm_trans; [apply Permutation_app_tail, insert_seg_perm |].
      simpl. apply Permutation_middle. }
  destruct (G [] (SSorted_nil _)) as [P S]. auto.
Qed.

Lemma strongly_sorted_filter {A} (R : A -> A -> Prop) f l :
  StronglySorted R l -> StronglySorted R (filter f l).
Proof.
  induction 1 as [| a l Hl IH Hall]; simpl; [constructor |].
  destruct (f a); [| exact IH].
  constructor; [exact IH |].
  apply Forall_forall. intros x Hx. apply filter_In in Hx.
  rewrite Forall_forall in Hall. apply Hall, Hx.
Qed.

Lemma perm_filter {A} (f : A -> bool) l l' :
  Permutation l l' -> Permutation (filter f l) (filter f l').
Proof.
  induction 1; simpl.
  - constructor.
  - destruct (f x); auto.
  - destruct (f x), (f y); auto. apply perm_swap.
  - eapply perm_trans; eauto.
Qed.

(** The live (not yet final) segments of a push. *)
Definition live (cutoff_ms : Z) (s : CaptionSegment) : bool :=
  negb (bracketed s) && negb (end_milliseconds s <=? cutoff_ms).

Lemma fold_active cutoff l u self :
  active (fst (fold_left (push_step cutoff) l (u, self)))
  = active u ++ filter (live cutoff) l.
Proof.
  revert u self; induction l as [| s l IH]; intros u self; cbn [fold_left];
    [rewrite app_nil_r; reflexivity |].
  assert (E : active (fst (push_step cutoff (u, self) s))
              = active u ++ (if live cutoff s then [s] else [])).
  { unfold push_step, live, bracketed.
    destruct (_ && _); simpl; [rewrite app_nil_r; reflexivity |].
    destruct (_ <=? cutoff); simpl; [| reflexivity].
    destruct (_ <=? _); simpl; rewrite app_nil_r; reflexivity. }
  destruct (push_step cutoff (u, self) s) as [u' self'] eqn:Es.
  rewrite IH. simpl in E. rewrite E, <- app_assoc. simpl.
  destruct (live cutoff s); reflexivity.
Qed.

Lemma fold_history cutoff l u self s :
  In s (history (fst (fold_left (push_step cutoff) l (u, self)))) ->
  In s (history u)
  \/ (In s l /\ bracketed s = false /\ end_milliseconds s <= cutoff).
Proof.
  revert u self; induction l as [| x l IH]; intros u self; cbn [fold_left];
    [auto |].
  assert (E : forall y, In y (history (fst (push_step cutoff (u, self) x))) ->
                In y (history u)
                \/ (y = x /\ bracketed x = false
                    /\ end_milliseconds x <= cutoff)).
  { intros y. unfold push_step, bracketed.
    destruct (_ && _) eqn:Eb; simpl; [auto |].
    destruct (end_milliseconds x <=? cutoff) eqn:Ec; simpl; [| auto].
    destruct (end_milliseconds x
              <=? last_final_end_ms self + dedupe_fuzz_ms self); simpl;
      [auto |].
    rewrite in_app_iff. intros [H | [H | []]]; [auto |].
    right. subst. apply Z.leb_le in Ec. auto. }
  destruct (push_step cutoff (u, self) x) as [u' self'] eqn:Es.
  intros H. destruct (IH u' self' H) as [H1 | (H1 & H2 & H3)].
  - destruct (E s H1) as [H4 | (-> & H5 & H6)]; [auto |].
    right. simpl. auto.
  - right. simpl. auto.
Qed.

Lemma history_of_push self now segs s :
  In s (history (fst (push self now segs))) ->
  In s segs /\ bracketed s = false
  /\ end_milliseconds s <= now - tail_ms self.
Proof.
  unfold push. intros H.
  destruct (fold_history _ _ _ _ _ H) as [[] | (H1 & H2 & H3)].
  split; [| auto].
  apply (Permutation_in _ (proj1 (sort_by_key_spec segs))). exact H1.
Qed.

Lemma active_of_push self now segs :
  Permutation (active (fst (push self now segs)))
    (filter (live (now - tail_ms self)) segs)
  /\ StronglySorted key_le (active (fst (push self now segs))).
Proof.
  unfold push. rewrite fold_active. simpl.
  destruct (sort_by_key_spec segs) as [P S]. split.
  - apply perm_filter, P.
  - apply strongly_sorted_filter, S.
Qed.

(** No segment of either list of a push is bracket-tagged (on its text
    as given, untrimmed). *)
Theorem push_drops_bracketed self now segs s :
  In s (history (fst (push self now segs)))
  \/ In s (active (fst (push self now segs))) ->
  bracketed s = false.
Proof.
  intros [H | H].
  - apply (history_of_push _ _ _ _ H).
  - destruct (active_of_push self now segs) as [P _].
    apply (Permutation_in _ P), filter_In in H.
    destruct H as [_ H]. unfold live in H.
    apply andb_true_iff in H. destruct H as [H _].
    apply negb_true_iff in H. exact H.
Qed.

(** Every finalized segment of a push is one of the pushed segments, is
    not bracket-tagged, and ends at or before [now_ms - tail_ms]. *)
Theorem push_history_final self now segs s :
  In s (history (fst (push self now segs))) ->
  In s segs /\ bracketed s = false
  /\ end_milliseconds s <= now - tail_ms self.
Proof. exact (history_of_push self now segs s). Qed.

(** The active list of a push is exactly the pushed segments that are not
    bracket-tagged and end after [now_ms - tail_ms], sorted by
    [(start, end)]: no live segment is lost, and none is finalized. *)
Theorem push_active_live self now segs :
  Permutation (active (fst (push self now segs)))
    (filter (live (now - tail_ms self)) segs)
  /\ StronglySorted key_le (active (fst (push self now segs))).
Proof. exact (active_of_push self now segs). Qed.

Definition seg_x := mkSegment 200 700 "x".
Definition seg_tag := mkSegment 300 900 "[MUSIC]".

Lemma push_history_final_witness :
  In seg_x (history (fst (push (new 1500) 3000 [seg_tag; seg_x])))
  /\ (In seg_x [seg_tag; seg_x] /\ bracketed seg_x = false
      /\ end_milliseconds seg_x <= 3000 - tail_ms (new 1500)).
Proof.
  assert (H : In seg_x (history (fst (push (new 1500) 3000 [seg_tag; seg_x]))))
    by (vm_compute; left; reflexivity).
  split; [exact H | exact (push_history_final (new 1500) 3000 _ _ H)].
Defined.

Lemma push_drops_bracketed_witness :
  (In seg_x (history (fst (push (new 1500) 3000 [seg_tag; seg_x])))
   \/ In seg_x (active (fst (push (new 1500) 3000 [seg_tag; seg_x]))))
  /\ bracketed seg_x = false.
Proof.
  assert (H : In seg_x (history (fst (push (new 1500) 3000 [seg_tag; seg_x])))
              \/ In seg_x (active (fst (push (new 1500) 3000 [seg_tag; seg_x]))))
    by (left; vm_compute; left; reflexivity).
  split; [exact H | exact (push_drops_bracketed (new 1500) 3000 _ _ H)].
Defined.

End StabilizerExtra.

(** ** Further buffer-sizing properties *)

Module BufferSizeExtra.

Import BufferSize.

Lemma gcd_loop_gcd fuel a b :
  0 <= a -> 0 <= b -> b < Z.of_nat fuel -> gcd_loop fuel a b = Z.gcd a b.
Proof.
  revert a b; induction fuel as [| fuel IH]; intros a b Ha Hb Hf; [lia |].
  simpl. destruct (Z.eqb_spec b 0) as [-> | Hne].
  - rewrite Z.gcd_0_r. lia.
  - pose proof (Z.mod_pos_bound a b ltac:(lia)).
    rewrite IH by lia.
    rewrite Z.gcd_comm, Z.gcd_mod by exact Hne. apply Z.gcd_comm.
Qed.

Lemma gcd_eq a b : 0 <= a -> 0 <= b -> gcd a b = Z.gcd a b.
Proof.
  intros Ha Hb. unfold gcd. apply gcd_loop_gcd; lia.
Qed.

(** The Euclidean loop [gcd] computes the greatest common divisor of any
    two [u32] values. *)
Theorem gcd_correct a b : 0 <= a -> 0 <= b -> gcd a b = Z.gcd a b.
Proof. exact (gcd_eq a b). Qed.

Lemma gcd_correct_witness : 0 <= 48000 /\ 0 <= 16000
  /\ gcd 48000 16000 = Z.gcd 48000 16000.
Proof. split; [lia | split; [lia | apply gcd_correct; lia]]. Defined.

(** For a device rate [R] below 2^31 and a block size [M] with no [u32]
    overflow, [target_buffer_size] returns a multiple of
    [d = R / gcd(R, target)] within [d / 2] of [M] (of the fallback 4096
    when the size is unknown). *)
Theorem target_buffer_size_multiple buffer_size R target :
  0 < R -> 0 <= target -> 2 * R < 2 ^ 32 ->
  0 <= match buffer_size with Range _ m => m | Unknown => 4096 end ->
  match buffer_size with Range _ m => m | Unknown => 4096 end + R < 2 ^ 32 ->
  exists r, target_buffer_size buffer_size R target = Some r
  /\ r mod (R / Z.gcd R target) = 0
  /\ 2 * Z.abs (r - match buffer_size with Range _ m => m | Unknown => 4096 end)
     <= R / Z.gcd R target.
Proof.
  intros HR Ht HR2 HM0 HM1.
  set (M := match buffer_size with Range _ m => m | Unknown => 4096 end)
    in *.
  assert (Hg : 0 < Z.gcd R target).
  { pose proof (Z.gcd_nonneg R target).
    destruct (Z.eq_dec (Z.gcd R target) 0) as [E |]; [| lia].
    apply Z.gcd_eq_0_l in E. lia. }
  assert (Hle : Z.gcd R target <= R).
  { apply Z.divide_pos_le; [exact HR | apply Z.gcd_divide_l]. }
  set (d := R / Z.gcd R target).
  assert (Hd : 0 < d) by (apply Z.div_str_pos; lia).
  assert (Hd2 : d <= R) by (apply Z.div_le_upper_bound; nia).
  destruct (BufferSizeFacts.find_nearest_to_spec M d HM0 Hd ltac:(lia) ltac:(lia))
    as (r & E & Hm & H1 & H2 & H3).
  exists r. unfold target_buffer_size. fold M.
  rewrite gcd_eq by lia.
  destruct (Z.eqb_spec (Z.gcd R target) 0); [lia |].
  fold d. split; [exact E |]. split; [exact Hm |].
  pose proof (Z.mod_pos_bound M d Hd).
  destruct (Z.lt_total (2 * (M mod d)) d) as [Hl | [He | Hg']].
  - rewrite (H1 Hl). lia.
  - rewrite (H2 He). lia.
  - rewrite (H3 Hg'). lia.
Qed.

Lemma target_buffer_size_multiple_witness :
  exists r, target_buffer_size Unknown 44100 16000 = Some r
  /\ r mod (44100 / Z.gcd 44100 16000) = 0
  /\ 2 * Z.abs (r - 4096) <= 44100 / Z.gcd 44100 16000.
Proof.
  apply (target_buffer_size_multiple Unknown 44100 16000); simpl; lia.
Defined.

End BufferSizeExtra.

(** ** Further scheduler properties *)

Module WhisperExtra.

Import Stabilizer Whisper WhisperFacts.

Lemma try_transcribe_samples log10 full elapsed_ms s :
  let s' := snd (fst (try_transcribe log10 full elapsed_ms s)) in
  segment_window s' = segment_window s
  /\ total_samples_seen s' = total_samples_seen s
  /\ length_samples s' = length_samples s
  /\ repeat_run_samples s' = repeat_run_samples s
  /\ min_transcode_samples s' = min_transcode_samples s
  /\ target_rate s' = target_rate s.
Proof.
  assert (M : forall a s1, materialize s = (a, s1) ->
    segment_window s1 = segment_window s
    /\ total_samples_seen s1 = total_samples_seen s
    /\ length_samples s1 = length_samples s
    /\ repeat_run_samples s1 = repeat_run_samples s
    /\ min_transcode_samples s1 = min_transcode_samples s
    /\ target_rate s1 = target_rate s).
  { unfold materialize. intros a s1.
    destruct (Nat.leb _ _); intros E; injection E; intros <- _;
      repeat split; reflexivity. }
  unfold try_transcribe.
  destruct (Nat.ltb (since_last_decode s) (repeat_run_samples s));
    [simpl; repeat split; reflexivity |].
  destruct (materialize s) as [audio s1].
  destruct (M audio s1 eq_refl) as (H1 & H2 & H3 & H4 & H5 & H6).
  destruct (silence_gate log10 (calculate_samples_rms audio));
    [| destruct (full audio)]; simpl; repeat split; assumption.
Qed.

(** A decode attempt never consumes, reorders or alters the buffered
    samples: the window, the sample count and the constants are left as
    they are (only [since_last_decode] and the scratch buffer may change). *)
Theorem try_transcribe_keeps_samples log10 full elapsed_ms s :
  let s' := snd (fst (try_transcribe log10 full elapsed_ms s)) in
  segment_window s' = segment_window s
  /\ total_samples_seen s' = total_samples_seen s
  /\ length_samples s' = length_samples s
  /\ repeat_run_samples s' = repeat_run_samples s
  /\ min_transcode_samples s' = min_transcode_samples s
  /\ target_rate s' = target_rate s.
Proof. exact (try_transcribe_samples log10 full elapsed_ms s). Qed.


Lemma run_total log10 full elapsed_ms s ops :
  total_samples_seen (run log10 full elapsed_ms s ops)
  = total_samples_seen s + Z.of_nat (List.length (accepted ops)).
Proof.
  revert s; induction ops as [| [xs |] ops IH]; intros s; simpl.
  - lia.
  - rewrite IH. simpl. rewrite length_app. lia.
  - pose proof (try_transcribe_samples log10 full elapsed_ms s) as K.
    destruct (try_transcribe log10 full elapsed_ms s) as [[o s'] c].
    simpl in K. destruct K as (_ & K & _).
    rewrite IH, K. reflexivity.
Qed.

(** In every reachable state the sample count is the number of samples
    accepted, and the window starts at sample index
    [total_samples_seen - len(window)] (never negative) of the accepted
    stream: the origin [try_transcribe] uses for [window_start_ms]. *)
Theorem window_start_offset log10 full elapsed_ms rate ops :
  let s := session log10 full elapsed_ms rate ops in
  total_samples_seen s = Z.of_nat (List.length (accepted ops))
  /\ 0 <= total_samples_seen s - Z.of_nat (List.length (segment_window s))
  /\ segment_window s
     = skipn (Z.to_nat (total_samples_seen s
                        - Z.of_nat (List.length (segment_window s))))
             (accepted ops).
Proof.
  intros s.
  assert (Ht : total_samples_seen s = Z.of_nat (List.length (accepted ops))).
  { unfold s, session. rewrite run_total. reflexivity. }
  pose proof (session_wf log10 full elapsed_ms rate ops) as Hwf.
  pose proof (wf_window_length _ _ _ Hwf) as Hlen. fold s in Hwf, Hlen.
  destruct Hwf as (HL & _ & _ & HW & _).
  split; [exact Ht |]. rewrite Ht, Hlen. split; [lia |].
  rewrite HW, HL. f_equal. lia.
Qed.

(** When the engine fails on the slice, [try_transcribe] returns [([], 0)]
    after one engine call and keeps [since_last_decode]: the very next
    attempt calls the engine again on the same slice. *)
Theorem engine_failure_retried log10 full elapsed_ms s :
  (repeat_run_samples s <= since_last_decode s)%nat ->
  silence_gate log10 (calculate_samples_rms (fst (materialize s))) = false ->
  full (fst (materialize s)) = None ->
  let '(out, s', calls) := try_transcribe log10 full elapsed_ms s in
  out = ([], 0) /\ calls = [fst (materialize s)]
  /\ since_last_decode s' = since_last_decode s
  /\ snd (try_transcribe log10 full elapsed_ms s')
     = [fst (materialize s)].
Proof.
  intros Hge Hg Hf. unfold try_transcribe at 1.
  destruct (Nat.ltb_spec (since_last_decode s) (repeat_run_samples s));
    [lia |].
  assert (Ms : forall a s1, materialize s = (a, s1) ->
    since_last_decode s1 = since_last_decode s /\ materialize s1 = (a, s1)).
  { unfold materialize. intros a s1.
    destruct (Nat.leb _ _) eqn:E; intros Eq; injection Eq; intros <- <-;
      [split; [reflexivity |]; unfold materialize; rewrite E; reflexivity |].
    split; [reflexivity |]. unfold materialize, set_scratch. simpl.
    rewrite E. reflexivity. }
  destruct (materialize s) as [audio s1] eqn:Em. simpl in Hg, Hf.
  destruct (Ms audio s1 eq_refl) as [Hs Hm].
  rewrite Hg, Hf. split; [reflexivity | split; [reflexivity |]].
  split; [exact Hs |].
  unfold try_transcribe. rewrite Hs.
  destruct (Nat.ltb_spec (since_last_decode s) (repeat_run_samples s1));
    [unfold materialize in Em; destruct (Nat.leb _ _); injection Em;
     intros <- _; simpl in *; lia |].
  rewrite Hm, Hg, Hf. reflexivity.
Qed.

(** A rate-10 transcriber holding five loud samples, with a failing
    engine. *)
Definition loud_state : WhisperTranscriber :=
  accept_samples (new 10) (repeat 1%float 5).

Lemma engine_failure_retried_witness :
  let '(out, s', calls) :=
    try_transcribe (fun _ => 0%float) (fun _ => None) 0 loud_state in
  out = ([], 0) /\ calls = [fst (materialize loud_state)]
  /\ since_last_decode s' = since_last_decode loud_state
  /\ snd (try_transcribe (fun _ => 0%float) (fun _ => None) 0 s')
     = [fst (materialize loud_state)].
Proof.
  apply (engine_failure_retried (fun _ => 0%float) (fun _ => None) 0
           loud_state); vm_compute; [lia | reflexivity | reflexivity].
Defined.

(** A successful decode calls the engine once on the slice, resets
    [since_last_decode], and emits, in order, exactly the engine's segments
    whose text is not blank, each shifted from centiseconds of the slice to
    absolute milliseconds: [window_start_ms + 10 * t], with
    [window_start_ms = (total_samples_seen - len(slice)) * 1000 / rate]. *)
Theorem successful_decode log10 full elapsed_ms s raws :
  (repeat_run_samples s <= since_last_decode s)%nat ->
  silence_gate log10 (calculate_samples_rms (fst (materialize s))) = false ->
  full (fst (materialize s)) = Some raws ->
  let ws := Z.quot ((total_samples_seen s
                     - Z.of_nat (List.length (fst (materialize s)))) * 1000)
                   (Z.of_nat (target_rate s)) in
  let '(out, s', calls) := try_transcribe log10 full elapsed_ms s in
  calls = [fst (materialize s)] /\ since_last_decode s' = 0%nat
  /\ out = (map (fun r => mkSegment (ws + start_timestamp r * 10)
                             (ws + end_timestamp r * 10) (raw_text r))
                (filter (fun r => negb (trim_is_empty (raw_text r))) raws),
            elapsed_ms).
Proof.
  intros Hge Hg Hf ws. unfold try_transcribe.
  destruct (Nat.ltb_spec (since_last_decode s) (repeat_run_samples s));
    [lia |].
  assert (Ms : forall a s1, materialize s = (a, s1) ->
    total_samples_seen s1 = total_samples_seen s
    /\ target_rate s1 = target_rate s).
  { unfold materialize. intros a s1.
    destruct (Nat.leb _ _); intros Eq; injection Eq; intros <- _;
      split; reflexivity. }
  destruct (materialize s) as [audio s1] eqn:Em. simpl in Hg, Hf, ws.
  destruct (Ms audio s1 eq_refl) as [Ht Hr].
  rewrite Hg, Hf. split; [reflexivity | split; [reflexivity |]].
  unfold ws. rewrite Ht, Hr. f_equal.
  unfold convert_segments. clear.
  induction raws as [| r raws IH]; simpl; [reflexivity |].
  destruct (trim_is_empty (raw_text r)); simpl; rewrite IH; reflexivity.
Qed.

Lemma successful_decode_witness :
  let ws := Z.quot ((total_samples_seen loud_state
                     - Z.of_nat (List.length (fst (materialize loud_state))))
                    * 1000) (Z.of_nat (target_rate loud_state)) in
  let '(out, s', calls) :=
    try_transcribe (fun _ => 0%float)
      (fun _ => Some [mkRaw " hi" 0 50; mkRaw "  " 50 60]) 3 loud_state in
  calls = [fst (materialize loud_state)] /\ since_last_decode s' = 0%nat
  /\ out = (map (fun r => mkSegment (ws + start_timestamp r * 10)
                             (ws + end_timestamp r * 10) (raw_text r))
                (filter (fun r => negb (trim_is_empty (raw_text r)))
                   [mkRaw " hi" 0 50; mkRaw "  " 50 60]),
            3).
Proof.
  apply (successful_decode (fun _ => 0%float)
           (fun _ => Some [mkRaw " hi" 0 50; mkRaw "  " 50 60]) 3
           loud_state); vm_compute; [lia | reflexivity | reflexivity].
Defined.

End WhisperExtra.

(** ** Further downmix properties *)

Module MixerExtra.

Import Mixer MixerFacts.

Lemma set_nth_none {T} (l : list T) i v :
  (List.length l <= i)%nat -> set_nth T l i v = None.
Proof.
  revert i; induction l as [| x xs IH]; intros [| i] Hi; simpl in *;
    try reflexivity; try lia.
  rewrite IH by lia. reflexivity.
Qed.

Lemma mix_loop_short {T} add mul (half : T) data k :
  forall i acc, (i <= List.length acc)%nat ->
  (List.length acc < i + k)%nat -> ((i + k) * 2 <= List.length data)%nat ->
  mix_loop T add mul half data k i acc = None.
Proof.
  induction k as [| k IH]; intros i acc Hi0 Hacc Hdata; simpl; [lia |].
  destruct (nth_error data (i * 2)) as [l |] eqn:El;
    [| apply nth_error_None in El; lia].
  destruct (nth_error data (i * 2 + 1)) as [r |] eqn:Er;
    [| apply nth_error_None in Er; lia].
  destruct (Nat.lt_ge_cases i (List.length acc)) as [Hi | Hi].
  - destruct (set_nth_spec acc i (mul (add l r) half) Hi)
      as (acc1 & E1 & Hlen1 & _).
    rewrite E1. apply IH; lia.
  - rewrite set_nth_none by exact Hi. reflexivity.
Qed.

Lemma mix_bounds {T} (add mul : T -> T -> T) (half : T)
    (out x : list T) :
  (mix_stereo_to_mono T add mul (Some half) out x = None
   <-> (List.length out < Nat.div (List.length x) 2)%nat)
  /\ forall out' n,
     mix_stereo_to_mono T add mul (Some half) out x = Some (out', n) ->
     List.length out' = List.length out
     /\ forall j, (n <= j)%nat -> nth_error out' j = nth_error out j.
Proof.
  pose proof (Nat.div_mod (List.length x) 2 ltac:(lia)).
  unfold mix_stereo_to_mono.
  destruct (Nat.lt_ge_cases (List.length out) (Nat.div (List.length x) 2))
    as [Hs | Hl].
  - rewrite mix_loop_short by lia.
    split; [split; auto |]. intros ? ? E; discriminate E.
  - destruct (mix_loop_spec add mul half x (Nat.div (List.length x) 2) 0 out
                ltac:(lia) ltac:(lia)) as (out' & E & Hlen & Ho & _).
    rewrite E. split; [split; [discriminate | intros; lia] |].
    intros o n Eq. injection Eq as <- <-.
    split; [exact Hlen |]. intros j Hj. apply Ho. right. exact Hj.
Qed.

(** [mix_stereo_to_mono] panics exactly when the output slice is shorter
    than [len(input) / 2]; otherwise the output keeps its length and every
    slot from [len(input) / 2] on is left untouched. *)
Theorem mix_stereo_to_mono_bounds {T} (add mul : T -> T -> T) (half : T)
    (out x : list T) :
  (mix_stereo_to_mono T add mul (Some half) out x = None
   <-> (List.length out < Nat.div (List.length x) 2)%nat)
  /\ forall out' n,
     mix_stereo_to_mono T add mul (Some half) out x = Some (out', n) ->
     List.length out' = List.length out
     /\ forall j, (n <= j)%nat -> nth_error out' j = nth_error out j.
Proof. exact (mix_bounds add mul half out x). Qed.


End MixerExtra.

(** ** Streaming resampler properties *)

Module StreamingExtra.

Import Resampler.
Local Open Scope nat_scope.

Section Engine.

Variable T Engine EngineError : Type.
Variable input_frames_next : Engine -> nat.
Variable process_into_buffer :
  Engine -> list T -> list T -> Result (Engine * list T * nat) EngineError.

Local Abbreviation loop :=
  (stream_loop T Engine EngineError input_frames_next process_into_buffer).

Lemma stream_loop_spec
    (Hpos : forall e, 0 < input_frames_next e)
    (Hw : forall e i o e' out w,
          process_into_buffer e i o = Ok (e', out, w) -> w <= List.length out) :
  forall fuel self tw,
  List.length (frames_queue T Engine self) < fuel ->
  exists r self' calls, loop fuel self tw = Some (r, self', calls)
  /\ (exists k, frames_queue T Engine self'
                = skipn k (frames_queue T Engine self))
  /\ forall n, r = Ok n ->
     List.length (frames_queue T Engine self')
       < input_frames_next (s_resampler T Engine self')
     /\ n = tw + list_sum (map (@List.length T) calls).
Proof.
  induction fuel as [| fuel IH]; intros self tw Hf; [lia |].
  cbn [stream_loop].
  destruct (Nat.ltb_spec (List.length (frames_queue T Engine self))
              (input_frames_next (s_resampler T Engine self))) as [Hlt | Hge].
  - do 3 eexists. split; [reflexivity |]. split; [exists 0; reflexivity |].
    intros n E. injection E as <-. simpl. split; [exact Hlt | lia].
  - simpl.
    destruct (process_into_buffer (s_resampler T Engine self) _ _)
      as [[[e' out] w] | err] eqn:Ep.
    + pose proof (Hw _ _ _ _ _ _ Ep) as Hwo.
      pose proof (Hpos (s_resampler T Engine self)).
      set (self2 := mkStreaming T Engine e'
                      (skipn (input_frames_next (s_resampler T Engine self))
                         (frames_queue T Engine self))
                      (firstn (input_frames_next (s_resampler T Engine self))
                         (frames_queue T Engine self)) out).
      assert (Hq : List.length (frames_queue T Engine self2) < fuel).
      { simpl. rewrite length_skipn. lia. }
      destruct (Nat.ltb_spec 0 w).
      * destruct (IH self2 (tw + w) Hq) as (r & s3 & calls & E & [k Hk] & Hok).
        rewrite E. do 3 eexists. split; [reflexivity |].
        split.
        -- exists (k + input_frames_next (s_resampler T Engine self)).
           rewrite Hk. simpl. apply skipn_skipn.
        -- intros n En. destruct (Hok n En) as [H1 H2]. split; [exact H1 |].
           simpl. rewrite length_firstn. lia.
      * destruct (IH self2 tw Hq) as (r & s3 & calls & E & [k Hk] & Hok).
        rewrite E. do 3 eexists. split; [reflexivity |].
        split; [| exact Hok].
        exists (k + input_frames_next (s_resampler T Engine self)).
        rewrite Hk. simpl. apply skipn_skipn.
    + do 3 eexists. split; [reflexivity |].
      split; [eexists; reflexivity |]. intros n E; discriminate E.
Qed.

Lemma stream_callback_total
    (Hpos : forall e, 0 < input_frames_next e)
    (Hw : forall e i o e' out w,
          process_into_buffer e i o = Ok (e', out, w) -> w <= List.length out)
    self input :
  exists r self' calls,
    stream_process_callback T Engine EngineError input_frames_next
      process_into_buffer self input = Some (r, self', calls)
  /\ (exists k, frames_queue T Engine self'
                = skipn k (frames_queue T Engine self ++ input))
  /\ forall n, r = Ok n ->
     List.length (frames_queue T Engine self')
       < input_frames_next (s_resampler T Engine self')
     /\ n = list_sum (map (@List.length T) calls).
Proof.
  unfold stream_process_callback.
  destruct (stream_loop_spec Hpos Hw
              (S (List.length (frames_queue T Engine self ++ input)))
              (mkStreaming T Engine (s_resampler T Engine self)
                 (frames_queue T Engine self ++ input)
                 (s_input_buffer T Engine self)
                 (s_output_buffer T Engine self)) 0 ltac:(simpl; lia))
    as (r & s' & calls & E & Hk & Hok).
  exists r, s', calls. split; [exact E |]. split; [exact Hk |].
  intros n En. destruct (Hok n En) as [H1 H2]. split; [exact H1 | lia].
Qed.

(** For an engine that always asks for some input and never reports more
    output than its buffer holds, [process_callback] stops, and leaves in
    its queue a suffix of (old queue ++ input): everything before it went
    to the engine, in order. On success that suffix is shorter than the
    engine's next block, and the returned count is the total length of the
    slices handed to the callback. *)
Theorem stream_process_callback_spec
    (Hpos : forall e, 0 < input_frames_next e)
    (Hw : forall e i o e' out w,
          process_into_buffer e i o = Ok (e', out, w) -> w <= List.length out)
    self input :
  exists r self' calls,
    stream_process_callback T Engine EngineError input_frames_next
      process_into_buffer self input = Some (r, self', calls)
  /\ (exists k, frames_queue T Engine self'
                = skipn k (frames_queue T Engine self ++ input))
  /\ forall n, r = Ok n ->
     List.length (frames_queue T Engine self')
       < input_frames_next (s_resampler T Engine self')
     /\ n = list_sum (map (@List.length T) calls).
Proof. exact (stream_callback_total Hpos Hw self input). Qed.


Lemma stream_loop_const (B : nat)
    (HB : 0 < B) (Hc : forall e, input_frames_next e = B)
    (Hok : forall e i o, exists e' out w,
           process_into_buffer e i o = Ok (e', out, w)) :
  forall fuel self tw,
  List.length (frames_queue T Engine self) < fuel ->
  exists r self' calls, loop fuel self tw = Some (r, self', calls)
  /\ frames_queue T Engine self'
     = skipn (B * Nat.div (List.length (frames_queue T Engine self)) B)
             (frames_queue T Engine self).
Proof.
  induction fuel as [| fuel IH]; intros self tw Hf; [lia |].
  cbn [stream_loop]. rewrite Hc.
  destruct (Nat.ltb_spec (List.length (frames_queue T Engine self)) B)
    as [Hlt | Hge].
  - do 3 eexists. split; [reflexivity |].
    rewrite Nat.div_small by exact Hlt. rewrite Nat.mul_0_r. reflexivity.
  - simpl.
    destruct (Hok (s_resampler T Engine self)
                (firstn B (frames_queue T Engine self))
                (s_output_buffer T Engine self)) as (e' & out & w & Ep).
    rewrite Ep.
    set (q := frames_queue T Engine self) in *.
    assert (Hd : Nat.div (List.length q) B
                 = S (Nat.div (List.length (skipn B q)) B)).
    { rewrite length_skipn.
      replace (List.length q) with (List.length q - B + 1 * B) at 1 by lia.
      rewrite Nat.div_add by lia. lia. }
    assert (Hs : forall s3, frames_queue T Engine s3
                 = skipn (B * Nat.div (List.length (skipn B q)) B) (skipn B q)
                 -> frames_queue T Engine s3
                    = skipn (B * Nat.div (List.length q) B) q).
    { intros s3 H. rewrite H, skipn_skipn, Hd. f_equal. lia. }
    destruct (Nat.ltb_spec 0 w).
    + destruct (IH (mkStreaming T Engine e' (skipn B q) (firstn B q) out)
                  (tw + w) ltac:(simpl; rewrite length_skipn; lia))
        as (r & s3 & calls & E & Hq).
      rewrite E. do 3 eexists. split; [reflexivity |]. apply Hs, Hq.
    + destruct (IH (mkStreaming T Engine e' (skipn B q) (firstn B q) out)
                  tw ltac:(simpl; rewrite length_skipn; lia))
        as (r & s3 & calls & E & Hq).
      rewrite E. do 3 eexists. split; [reflexivity |]. apply Hs, Hq.
Qed.

(** With a fixed block size [B] and an engine that never fails, the queue
    after [process_callback] is (old queue ++ input) with its first
    [B * floor(len / B)] frames removed: exactly [len mod B] frames wait
    for the next call. *)
Theorem stream_process_callback_const (B : nat)
    (HB : 0 < B) (Hc : forall e, input_frames_next e = B)
    (Hok : forall e i o, exists e' out w,
           process_into_buffer e i o = Ok (e', out, w))
    self input :
  exists r self' calls,
    stream_process_callback T Engine EngineError input_frames_next
      process_into_buffer self input = Some (r, self', calls)
  /\ frames_queue T Engine self'
     = skipn (B * Nat.div (List.length (frames_queue T Engine self ++ input)) B)
             (frames_queue T Engine self ++ input).
Proof.
  unfold stream_process_callback.
  apply (stream_loop_const B HB Hc Hok). simpl. lia.
Qed.

End Engine.

(** An engine of block size 2 that copies its input to its output. *)
Definition copy_engine (e : unit) (i o : list nat)
    : Result (unit * list nat * nat) unit :=
  Ok (e, i, List.length i).

Definition stream_state : StreamingResampler nat unit :=
  mkStreaming nat unit tt [7%nat] [] [].

Lemma stream_process_callback_spec_witness :
  exists r self' calls,
    stream_process_callback nat unit unit (fun _ => 2%nat) copy_engine
      stream_state [8; 9; 10]%nat = Some (r, self', calls)
  /\ (exists k, frames_queue nat unit self'
                = skipn k (frames_queue nat unit stream_state ++ [8; 9; 10]%nat))
  /\ forall n, r = Ok n ->
     List.length (frames_queue nat unit self') < 2
     /\ n = list_sum (map (@List.length nat) calls).
Proof.
  apply (stream_process_callback_spec nat unit unit (fun _ => 2%nat)
           copy_engine); [intros; lia |].
  unfold copy_engine. intros e i o e' out w E. injection E as <- <- <-. lia.
Defined.

Lemma stream_process_callback_const_witness :
  exists r self' calls,
    stream_process_callback nat unit unit (fun _ => 2%nat) copy_engine
      stream_state [8; 9; 10]%nat = Some (r, self', calls)
  /\ frames_queue nat unit self'
     = skipn (2 * Nat.div (List.length (frames_queue nat unit stream_state
                                         ++ [8; 9; 10]%nat)) 2)
             (frames_queue nat unit stream_state ++ [8; 9; 10]%nat).
Proof.
  apply (stream_process_callback_const nat unit unit (fun _ => 2%nat)
           copy_engine 2); [lia | reflexivity |].
  intros e i o. do 3 eexists. reflexivity.
Defined.

End StreamingExtra.

(** ** Caption composition properties *)

Module ComposerExtra.

Import Stabilizer Composer.
Local Open Scope string_scope.

Lemma str_app_assoc (a b c : string) : (a ++ b) ++ c = a ++ (b ++ c).
Proof. induction a as [| x a IH]; simpl; [reflexivity | now rewrite IH]. Qed.

Lemma str_app_empty (a b : string) : a ++ b = "" -> a = "" /\ b = "".
Proof. destruct a; [simpl; auto | discriminate]. Qed.

Lemma join_cons2 sep p x (xs : list string) :
  join sep (p :: x :: xs) = p ++ sep ++ join sep (x :: xs).
Proof. reflexivity. Qed.

Lemma join_app sep (l1 l2 : list string) :
  l1 <> [] -> l2 <> [] ->
  join sep (l1 ++ l2)%list = join sep l1 ++ sep ++ join sep l2.
Proof.
  intros H1 H2. induction l1 as [| p rest IH]; [congruence |].
  destruct rest as [| q r].
  - simpl. destruct l2; [congruence | reflexivity].
  - change ((p :: q :: r) ++ l2)%list with (p :: q :: (r ++ l2))%list.
    rewrite !join_cons2.
    change (q :: (r ++ l2))%list with ((q :: r) ++ l2)%list.
    rewrite IH by discriminate.
    rewrite !str_app_assoc. reflexivity.
Qed.

Lemma join_nonempty sep (l : list string) :
  Forall (fun t => t <> "") l -> l <> [] -> join sep l <> "".
Proof.
  intros F Hl. destruct l as [| p rest]; [congruence |].
  inversion F as [| ? ? Hp _]; subst.
  destruct rest as [| q r]; simpl; [exact Hp |].
  intros E. apply str_app_empty in E. tauto.
Qed.

Lemma nonblank_parts (segs : list CaptionSegment) :
  Forall (fun t => t <> "")
    (filter (fun t => negb (String.eqb t ""))
       (map (fun segment => trim (text segment)) segs)).
Proof.
  apply Forall_forall. intros t Ht. apply filter_In in Ht.
  destruct Ht as [_ Ht]. apply negb_true_iff, String.eqb_neq in Ht. exact Ht.
Qed.

Lemma parts_nil_iff (segs : list CaptionSegment) :
  filter (fun t => negb (String.eqb t ""))
    (map (fun segment => trim (text segment)) segs) = []
  <-> Forall (fun segment => trim (text segment) = "") segs.
Proof.
  induction segs as [| s rest IH]; simpl; [split; auto |].
  destruct (String.eqb_spec (trim (text s)) "") as [E | E]; simpl.
  - rewrite IH. split; [intros; constructor; auto | now inversion 1].
  - split; [discriminate | now inversion 1].
Qed.

Lemma segments_to_text_empty_iff (segs : list CaptionSegment) :
  segments_to_text segs = ""
  <-> Forall (fun segment => trim (text segment) = "") segs.
Proof.
  rewrite <- parts_nil_iff. unfold segments_to_text. split.
  - intros E. destruct (filter _ _) as [| p r] eqn:Ef; [reflexivity |].
    exfalso. apply (join_nonempty " " (p :: r)); [| discriminate | exact E].
    rewrite <- Ef. apply nonblank_parts.
  - intros ->. reflexivity.
Qed.

(** The caption text is empty exactly when every segment's trimmed text
    is empty: the worker never sends a caption made only of blanks. *)
Theorem segments_to_text_blank (segs : list CaptionSegment) :
  segments_to_text segs = ""
  <-> Forall (fun segment => trim (text segment) = "") segs.
Proof. exact (segments_to_text_empty_iff segs). Qed.

(** [compose_caption_text history active] is [segments_to_text] of the
    concatenated lists: the history and active parts are joined by one
    space, and an empty side adds no separator. *)
Theorem compose_is_concat (history active : list CaptionSegment) :
  compose_caption_text history active = segments_to_text (history ++ active)%list.
Proof.
  unfold compose_caption_text.
  assert (E : segments_to_text (history ++ active)%list
    = join " " (filter (fun t => negb (String.eqb t ""))
                  (map (fun segment => trim (text segment)) history)
                ++ filter (fun t => negb (String.eqb t ""))
                  (map (fun segment => trim (text segment)) active))%list).
  { unfold segments_to_text. now rewrite map_app, filter_app. }
  rewrite E. clear E.
  destruct (String.eqb_spec (segments_to_text history) "") as [Eh | Eh].
  - apply segments_to_text_empty_iff, parts_nil_iff in Eh. rewrite Eh.
    reflexivity.
  - destruct (String.eqb_spec (segments_to_text active) "") as [Ea | Ea].
    + apply segments_to_text_empty_iff, parts_nil_iff in Ea. rewrite Ea, app_nil_r.
      reflexivity.
    + unfold segments_to_text in *.
      rewrite join_app; [reflexivity | |]; intros E; rewrite E in *; auto.
Qed.

End ComposerExtra.

(** ** Capture callback properties *)

Module CaptureExtra.

Import Resampler Worker.
Local Open Scope nat_scope.

Lemma resize_length l n : List.length (resize l n) = n.
Proof.
  unfold resize. rewrite length_app, length_firstn, repeat_length. lia.
Qed.

(** On a full block ([target_buffer_size * channels] samples), the capture
    callback panics exactly when [channels] is 0 (division by zero) or the
    down-mix writes past the accumulator, which has [target_buffer_size]
    frames but receives [len / 2] of them: so with 1 or 2 channels it never
    panics, and with more it panics on any block of 2 frames or more. The
    engine is one that always asks for input and reports no more output
    than its buffer holds. *)
Theorem process_input_panics P push_slice Engine EngineError
    (input_frames_next : Engine -> nat) process_into_buffer
    (Hpos : forall e, 0 < input_frames_next e)
    (Hw : forall e i o e' out w,
          process_into_buffer e i o = Ok (e', out, w) -> w <= List.length out)
    self data producer :
  List.length data = target_buffer_size _ self * channels _ self ->
  (process_input P push_slice Engine EngineError input_frames_next
     process_into_buffer self data producer = None
   <-> channels _ self = 0
       \/ target_buffer_size _ self
           < Nat.div (target_buffer_size _ self * channels _ self) 2).
Proof.
  intros Hlen. unfold process_input. rewrite Hlen, Nat.eqb_refl. simpl negb.
  cbv iota.
  destruct (Nat.eqb_spec (channels _ self) 0) as [E0 | N0].
  - split; auto.
  - rewrite Nat.div_mul by exact N0.
    destruct (MixerExtra.mix_bounds PrimFloat.add PrimFloat.mul 0.5%float
                (resize (samples_accumulator _ self) (target_buffer_size _ self))
                data) as [Hn _].
    rewrite resize_length, Hlen in Hn.
    destruct (Mixer.mix_stereo_to_mono _ _ _ _ _ _) as [[acc' n] |] eqn:Em.
    + destruct (StreamingExtra.stream_callback_total float Engine EngineError
                  input_frames_next process_into_buffer Hpos Hw
                  (cb_resampler _ self) acc') as (r & s' & calls & E & _).
      rewrite E. split; [discriminate |].
      intros [H | H]; [contradiction |]. apply Hn in H. discriminate H.
    + split; [intros _; right; apply Hn; reflexivity | reflexivity].
Qed.

(** An engine of block size 2 that copies its input to its output. *)
Definition copy_engine_f (e : unit) (i o : list float)
    : Result (unit * list float * nat) unit :=
  Ok (e, i, List.length i).

(** A four-channel device with a one-frame buffer per channel group. *)
Definition quad_state : ResampleCallbackState unit :=
  mkCallbackState unit 4 1 (mkStreaming float unit tt [] [] []) [].

Definition quad_block : list float := [1; 2; 3; 4]%float.

Lemma process_input_panics_witness :
  List.length quad_block = target_buffer_size _ quad_state * channels _ quad_state
  /\ (process_input (list (list float)) (fun p s => p ++ [s]) unit unit
        (fun _ => 2) copy_engine_f quad_state quad_block [] = None
      <-> channels _ quad_state = 0
          \/ target_buffer_size _ quad_state
              < Nat.div (target_buffer_size _ quad_state * channels _ quad_state) 2).
Proof.
  assert (H : List.length quad_block
              = target_buffer_size _ quad_state * channels _ quad_state)
    by reflexivity.
  split; [exact H |].
  apply (process_input_panics (list (list float)) (fun p s => p ++ [s]) unit unit
           (fun _ => 2) copy_engine_f); [intros; lia | | exact H].
  unfold copy_engine_f. intros e i o e' out w E. injection E as <- <- <-. lia.
Defined.

End CaptureExtra.

(** ** Transcription worker properties *)

Module WorkerExtra.

Import Stabilizer Whisper StabilizerFacts Worker.

(** [fresh_texts prev l]: every text of [l] is non-empty and differs from
    the one before it, the first from [prev]. *)
Fixpoint fresh_texts (prev : string) (l : list string) : Prop :=
  match l with
  | [] => True
  | t :: rest => t <> ""%string /\ t <> prev /\ fresh_texts t rest
  end.

Lemma last_cons_default {A} (x : A) l d1 d2 :
  last (x :: l) d1 = last (x :: l) d2.
Proof.
  revert x; induction l as [| y l IH]; intros x; [reflexivity |].
  change (last (y :: l) d1 = last (y :: l) d2). apply IH.
Qed.

(** The worker's bookkeeping invariant. *)
Definition worker_inv (w : WorkerState) : Prop :=
  worker_total_samples_seen w = total_samples_seen (transcriber w)
  /\ chain 80 0 (history_segments w) (last_final_end_ms (stabilizer w))
  /\ dedupe_fuzz_ms (stabilizer w) = 80.

Section Loop.

Variable log10 : float -> float.
Variable full : list float -> option (list RawSegment).
Variable elapsed_ms : Z.

Local Abbreviation step := (worker_step log10 full elapsed_ms).
Local Abbreviation run := (worker_run log10 full elapsed_ms).

Lemma worker_step_total w c :
  worker_total_samples_seen (fst (step w c))
  = worker_total_samples_seen w + Z.of_nat (List.length c).
Proof.
  unfold worker_step.
  destruct (Nat.eqb_spec (List.length c) 0) as [E | E].
  - simpl. rewrite E. lia.
  - destruct (try_transcribe log10 full elapsed_ms (accept_samples (transcriber w) c))
      as [[[segs dur] tr'] calls].
    destruct (push _ _ segs) as [u stab'].
    destruct (active u), (history u);
      try (destruct (_ || _)); reflexivity.
Qed.

Lemma worker_step_inv w c : worker_inv w -> worker_inv (fst (step w c)).
Proof.
  intros (Ht & Hc & Hf). unfold worker_step.
  destruct (Nat.eqb (List.length c) 0); [exact (conj Ht (conj Hc Hf)) |].
  pose proof (WhisperExtra.try_transcribe_samples log10 full elapsed_ms
                (accept_samples (transcriber w) c)) as K.
  destruct (try_transcribe log10 full elapsed_ms (accept_samples (transcriber w) c))
    as [[[segs dur] tr'] calls].
  simpl in K. destruct K as (_ & K & _).
  simpl in K.
  pose proof (push_chain (stabilizer w)
                (Z.quot ((worker_total_samples_seen w + Z.of_nat (List.length c))
                         * 1000) TARGET_RATE) segs Hf) as [Hp Hf'].
  destruct (push _ _ segs) as [u stab'].
  simpl in Hp, Hf'.
  assert (Hall : chain 80 0 (history_segments w ++ history u)
                   (last_final_end_ms stab'))
    by exact (chain_app _ _ _ _ _ _ Hc Hp).
  assert (Htot : worker_total_samples_seen w + Z.of_nat (List.length c)
                 = total_samples_seen tr') by lia.
  destruct (active u), (history u) eqn:Eh;
    try (destruct (_ || _));
    try (split; [exact Htot | split; [exact Hall | exact Hf']]).
  inversion Hp; subst.
  unfold worker_inv; simpl. rewrite <- H0.
  split; [exact Htot | split; [exact Hc | exact Hf']].
Qed.

Lemma worker_run_inv w chunks :
  worker_inv w -> worker_inv (fst (run w chunks)).
Proof.
  revert w; induction chunks as [| c rest IH]; intros w H; simpl; [exact H |].
  pose proof (worker_step_inv w c H) as H1.
  destruct (step w c) as [w1 m]. simpl in H1.
  pose proof (IH w1 H1) as H2.
  destruct (run w1 rest) as [w2 ms]. exact H2.
Qed.

Lemma worker_run_total w chunks :
  worker_total_samples_seen (fst (run w chunks))
  = worker_total_samples_seen w + Z.of_nat (List.length (List.concat chunks)).
Proof.
  revert w; induction chunks as [| c rest IH]; intros w; simpl; [lia |].
  pose proof (worker_step_total w c) as H1.
  destruct (step w c) as [w1 m]. simpl in H1.
  pose proof (IH w1) as H2.
  destruct (run w1 rest) as [w2 ms]. simpl in *.
  rewrite H2, H1, length_app. lia.
Qed.

Lemma worker_step_msg w c :
  match snd (step w c) with
  | None => last_sent_text (fst (step w c)) = last_sent_text w
  | Some (_, t) => t <> ""%string /\ t <> last_sent_text w
                   /\ last_sent_text (fst (step w c)) = t
  end.
Proof.
  unfold worker_step.
  destruct (Nat.eqb (List.length c) 0); [reflexivity |].
  destruct (try_transcribe log10 full elapsed_ms (accept_samples (transcriber w) c))
    as [[[segs dur] tr'] calls].
  destruct (push _ _ segs) as [u stab'].
  destruct (active u), (history u); try reflexivity;
    match goal with
    | |- context [String.eqb ?t ""%string || String.eqb ?t ?p] =>
        destruct (String.eqb_spec t ""%string), (String.eqb_spec t p);
        simpl; auto
    end.
Qed.

Lemma worker_run_msgs w chunks :
  fresh_texts (last_sent_text w) (map snd (snd (run w chunks)))
  /\ last_sent_text (fst (run w chunks))
     = last (map snd (snd (run w chunks))) (last_sent_text w).
Proof.
  revert w; induction chunks as [| c rest IH]; intros w; simpl; [auto |].
  pose proof (worker_step_msg w c) as H1.
  destruct (step w c) as [w1 m]. simpl in H1.
  pose proof (IH w1) as [H2 H3].
  destruct (run w1 rest) as [w2 ms]. simpl in *.
  destruct m as [[d t] |].
  - destruct H1 as (H4 & H5 & H6). rewrite H6 in H2, H3.
    simpl. split; [auto |].
    rewrite H3. destruct (map snd ms); [reflexivity | apply last_cons_default].
  - rewrite H1 in H2, H3. auto.
Qed.

End Loop.

(** From [worker_new], over any sequence of popped slices: the worker's
    [total_samples_seen] is the number of samples popped and agrees with
    the transcriber's own count; the finalized history it keeps satisfies
    the stabilizer's end-time chain (each segment ends more than 80 ms after
    the previous one, the last at [last_final_end_ms]). *)
Theorem worker_bookkeeping log10 full elapsed_ms chunks :
  let w := fst (worker_run log10 full elapsed_ms worker_new chunks) in
  worker_total_samples_seen w = Z.of_nat (List.length (List.concat chunks))
  /\ total_samples_seen (transcriber w) = worker_total_samples_seen w
  /\ chain 80 0 (history_segments w) (last_final_end_ms (stabilizer w)).
Proof.
  simpl.
  pose proof (worker_run_total log10 full elapsed_ms worker_new chunks) as T.
  destruct (worker_run_inv log10 full elapsed_ms worker_new chunks
              ltac:(repeat split; constructor)) as (H1 & H2 & _).
  simpl in T. split; [exact T |]. split; [symmetry; exact H1 | exact H2].
Qed.

(** The worker never sends an empty caption, never sends the same text
    twice in a row (nor the text it last sent before), and
    [last_sent_text] is always the text of its last message. *)
Theorem worker_messages_fresh log10 full elapsed_ms w chunks :
  fresh_texts (last_sent_text w)
    (map snd (snd (worker_run log10 full elapsed_ms w chunks)))
  /\ last_sent_text (fst (worker_run log10 full elapsed_ms w chunks))
     = last (map snd (snd (worker_run log10 full elapsed_ms w chunks)))
         (last_sent_text w).
Proof. exact (worker_run_msgs log10 full elapsed_ms w chunks). Qed.

End WorkerExtra.

(** ** Nearest multiple *)

Module NearestExtra.

Import BufferSize.

(** Where no [u32] wrap-around occurs, [find_nearest_to base d] is a
    multiple of [d] at least as close to [base] as any other multiple of
    [d]. *)
Theorem find_nearest_to_nearest base d :
  0 <= base -> 0 < d -> 2 * d < 2 ^ 32 -> base + d < 2 ^ 32 ->
  exists r, find_nearest_to base d = Some r /\ r mod d = 0
  /\ forall k, Z.abs (r - base) <= Z.abs (k * d - base).
Proof.
  intros Hb Hd Hd2 Hbd.
  destruct (BufferSizeFacts.find_nearest_to_spec base d Hb Hd Hd2 Hbd)
    as (r & E & Hr & H1 & H2 & H3).
  exists r. split; [exact E |]. split; [exact Hr |].
  intros k.
  pose proof (Z.mod_pos_bound base d Hd) as Hm.
  pose proof (Z.div_mod base d ltac:(lia)) as Hdm.
  set (m := base mod d) in *. set (q := base / d) in *.
  assert (Hk : k * d - base = (k - q) * d - m) by lia.
  rewrite Hk.
  destruct (Z.lt_total (2 * m) d) as [Hlt | [Heq | Hgt]].
  - rewrite (H1 Hlt). destruct (Z.le_gt_cases (k - q) 0) as [Hj | Hj].
    + assert ((k - q) * d <= 0) by nia. rewrite !Z.abs_neq by lia. lia.
    + assert (d <= (k - q) * d) by nia.
      rewrite Z.abs_neq by lia. rewrite Z.abs_eq by lia. lia.
  - rewrite (H2 Heq). destruct (Z.le_gt_cases (k - q) 0) as [Hj | Hj].
    + assert ((k - q) * d <= 0) by nia. rewrite !Z.abs_neq by lia. lia.
    + assert (d <= (k - q) * d) by nia.
      rewrite Z.abs_neq by lia. rewrite Z.abs_eq by lia. lia.
  - rewrite (H3 Hgt). destruct (Z.le_gt_cases (k - q) 0) as [Hj | Hj].
    + assert ((k - q) * d <= 0) by nia.
      rewrite Z.abs_eq by lia. rewrite Z.abs_neq by lia. lia.
    + assert (d <= (k - q) * d) by nia.
      rewrite !Z.abs_eq by lia. lia.
Qed.

Lemma find_nearest_to_nearest_witness :
  0 <= 4000 /\ 0 < 147 /\ 2 * 147 < 2 ^ 32 /\ 4000 + 147 < 2 ^ 32
  /\ exists r, find_nearest_to 4000 147 = Some r /\ r mod 147 = 0
     /\ forall k, Z.abs (r - 4000) <= Z.abs (k * 147 - 4000).
Proof.
  split; [lia | split; [lia | split; [lia | split; [lia |]]]].
  apply find_nearest_to_nearest; lia.
Defined.

End NearestExtra.
